(** * vmc_sender: synthesis and smoothing core of the VMC test sender

    A shallow embedding of [vmc_sender.py].  Python floats are modelled by
    the real numbers of the Standard Library (rounding, infinities and NaN are
    not represented), dictionaries with string keys by stdpp's [gmap], and the
    packets handed to the OSC client by an explicit list of messages.  The
    clock is an input: each loop iteration receives its readings of
    [time.time()].  Command-line parsing, logging, the listener thread and
    the sockets themselves are outside the model. *)

From Stdlib Require Import Reals Lra Psatz.
From stdpp Require Import gmap strings list fin_maps.

#[local] Open Scope R_scope.

(** ** Scalars *)

(** [clamp01]: [max(0.0, min(1.0, float(value)))]. *)
Definition clamp01 (value : R) : R := Rmax 0 (Rmin 1 value).

(** ** OSC messages handed to the client *)

Inductive OscArg : Type :=
| OStr (s : string)
| OFloat (r : R)
| OInt (z : Z).

(** One call of [DualClient.send(addr, args)]. *)
Record Message : Type := mkMessage { addr : string; args : list OscArg }.

Module VMCSender.

Definition ok : Message := mkMessage "/VMC/Ext/OK" [OInt 1].

Definition tick (now : R) : Message := mkMessage "/VMC/Ext/T" [OFloat now].

Definition pos_args (name : string) (x y z : R) (q : R * R * R * R) : list OscArg :=
  let '(qx, qy, qz, qw) := q in
  [OStr name; OFloat x; OFloat y; OFloat z; OFloat qx; OFloat qy; OFloat qz; OFloat qw].

Definition root (name : string) (x y z : R) (q : R * R * R * R) : Message :=
  mkMessage "/VMC/Ext/Root/Pos" (pos_args name x y z q).

Definition bone (name : string) (x y z : R) (q : R * R * R * R) : Message :=
  mkMessage "/VMC/Ext/Bone/Pos" (pos_args name x y z q).

Definition tracker (name : string) (x y z : R) (q : R * R * R * R) : Message :=
  mkMessage "/VMC/Ext/Tra/Pos" (pos_args name x y z q).

Definition blend (name : string) (value : R) : Message :=
  mkMessage "/VMC/Ext/Blend/Val" [OStr name; OFloat value].

Definition apply : Message := mkMessage "/VMC/Ext/Blend/Apply" [].

End VMCSender.

(** ** Client pair *)

Record Endpoint : Type := mkEndpoint { ep_host : string; ep_port : Z }.

#[global] Instance Endpoint_eq_dec : EqDecision Endpoint.
Proof. solve_decision. Defined.

(** A datagram: where it goes and what it carries. *)
Definition Packet : Type := Endpoint * Message.

Module DualClient.

Record t : Type := mk { primary : Endpoint; mirror : option Endpoint }.

(** The mirror exists when [mirror_host and mirror_port] is truthy: a
    non-empty host and a non-zero port. *)
Definition init (host : string) (port : Z)
  (mirror_host : option string) (mirror_port : option Z) : t :=
  mk (mkEndpoint host port)
     match mirror_host, mirror_port with
     | Some h, Some p =>
         if decide (h = EmptyString) then None
         else if decide (p = 0%Z) then None
         else Some (mkEndpoint h p)
     | _, _ => None
     end.

Definition send (c : t) (m : Message) : list Packet :=
  (primary c, m) ::
  match mirror c with
  | Some e => [(e, m)]
  | None => []
  end.

End DualClient.

(** The datagrams for a sequence of messages handed to the client. *)
Definition transmit (c : DualClient.t) (msgs : list Message) : list Packet :=
  flat_map (DualClient.send c) msgs.

(** The messages that reach endpoint [e], in order of arrival. *)
Definition received (e : Endpoint) (packets : list Packet) : list Message :=
  map snd (filter (fun p : Packet => p.1 = e) packets).

(** The client [main] builds (lines 220-223) from [--host], [--port],
    [--mirror] and [--listen-port]. *)
Definition main_client (host : string) (port : Z) (mirror : bool) (listen_port : Z)
  : DualClient.t :=
  DualClient.init host port
    (if mirror then Some "127.0.0.1"%string else None)
    (if mirror then Some listen_port else None).

(** ** Static tables *)

Definition EXPRESSION_PRESETS : list (string * list (string * R)) :=
  [ ("neutral", []);
    ("happy", [("Joy", 1); ("happy", 1)]);
    ("anger", [("Angry", 1); ("angry", 1)]);
    ("sad", [("Sorrow", 1); ("sad", 1)]);
    ("fun", [("Fun", 1); ("relaxed", 1)]);
    ("surprise", [("Surprised", 1); ("surprised", 1)]) ]%string.

Definition BLEND_KEYS_TO_CLEAR : list string :=
  [ "Neutral"; "neutral"; "Joy"; "happy"; "Angry"; "angry"; "Sorrow"; "sad";
    "Fun"; "relaxed"; "Surprised"; "surprised";
    "Blink"; "Blink_L"; "Blink_R"; "blink"; "blinkLeft"; "blinkRight" ]%string.

Definition BLINK_KEYS : list string :=
  [ "Blink"; "Blink_L"; "Blink_R"; "blink"; "blinkLeft"; "blinkRight" ]%string.

(** ** Dictionary helpers *)

(** [d.get(key, dflt)]. *)
Definition dict_get (d : gmap string R) (key : string) (dflt : R) : R :=
  default dflt (d !! key).

(** [{k: 0.0 for k in keys}]. *)
Definition zero_dict (keys : list string) : gmap string R :=
  fold_left (fun d k => <[k := 0]> d) keys ∅.

(** [EXPRESSION_PRESETS.get(expr, [])]: the first entry of the table whose
    name is [expr] (the names of the literal are pairwise distinct). *)
Fixpoint presets_get (table : list (string * list (string * R))) (expr : string)
  : list (string * R) :=
  match table with
  | [] => []
  | (name, pairs) :: rest =>
      if String.eqb name expr then pairs else presets_get rest expr
  end.

(** Truth value of [custom_expr_key] in [if custom_expr_key:]: [None] and the
    empty string are false. *)
Definition truthy_key (custom_expr_key : option string) : option string :=
  match custom_expr_key with
  | Some EmptyString => None
  | other => other
  end.

(** ** Blend update *)

(** Lines 165-175: the per-frame target dictionary. *)
Definition blend_target (expr : string) (intensity blink : R)
    (custom_expr_key : option string) : gmap string R :=
  let target := zero_dict BLEND_KEYS_TO_CLEAR in
  let target :=
    match truthy_key custom_expr_key with
    | Some key => <[key := clamp01 intensity]> target
    | None =>
        fold_left (fun tg '(name, value) => <[name := value * clamp01 intensity]> tg)
                  (presets_get EXPRESSION_PRESETS expr) target
    end in
  let b := clamp01 blink in
  fold_left (fun tg key => <[key := b]> tg) BLINK_KEYS target.

(** Body of the loop of lines 178-182 for one key: the state is updated in
    place and the new value is sent. *)
Definition ease_key (target : gmap string R) (a : R)
    (acc : gmap string R * list Message) (key : string)
  : gmap string R * list Message :=
  let '(state, sent) := acc in
  let prev := dict_get state key 0 in
  let nxt := prev + (dict_get target key 0 - prev) * a in
  (<[key := nxt]> state, sent ++ [VMCSender.blend key nxt]).

(** [apply_expression_and_blink]: returns the updated state together with the
    messages sent through [vmc], in order. *)
Definition apply_expression_and_blink (expr : string) (intensity blink : R)
    (custom_expr_key : option string) (state : option (gmap string R)) (alpha : R)
  : gmap string R * list Message :=
  let state :=
    match state with
    | None => zero_dict BLEND_KEYS_TO_CLEAR
    | Some st => st
    end in
  let target := blend_target expr intensity blink custom_expr_key in
  let a := clamp01 alpha in
  let '(state, sent) := fold_left (ease_key target a) BLEND_KEYS_TO_CLEAR (state, []) in
  (state, sent ++ [VMCSender.apply]).

(** ** Quaternion builder *)

Definition quat_from_euler_xyz (rx ry rz : R) : R * R * R * R :=
  let cx := cos (rx / 2) in let sx := sin (rx / 2) in
  let cy := cos (ry / 2) in let sy := sin (ry / 2) in
  let cz := cos (rz / 2) in let sz := sin (rz / 2) in
  let qw := cx * cy * cz - sx * sy * sz in
  let qx := sx * cy * cz + cx * sy * sz in
  let qy := cx * sy * cz - sx * cy * sz in
  let qz := cx * cy * sz + sx * sy * cz in
  (qx, qy, qz, qw).

(** ** Idle pose generator *)

(** Returns [(y_root, pitch, yaw, roll)]. *)
Definition compute_idle_pose (t strength : R) : R * R * R * R :=
  let s := strength in
  let pitch := sin (t * 1.10) * 0.10 * s in
  let yaw := sin (t * 0.75) * 0.14 * s in
  let roll := sin (t * 0.50) * 0.06 * s in
  let y_root := sin (t * 1.30) * 0.01 * s in
  (y_root, pitch, yaw, roll).

(** ** Blink oscillator *)

(** Python's [x % p] on floats: the remainder has the sign of the divisor,
    [x - floor(x / p) * p]. *)
Definition py_mod (x p : R) : R := x - IZR (Int_part (x / p)) * p.

Definition compute_blink (t : R) : R :=
  let period := 3.2 in
  let width := 0.11 in
  let phase := py_mod t period in
  if Rlt_dec phase width then
    let x := phase / width in
    1 - Rabs (x * 2 - 1)
  else 0.

(** ** Transmission loop *)

(** The parsed command line, as far as the loop body reads it;
    field [arg_x] is [args.x], and [arg_custom_expr_key] is
    [args.expr_key.strip() or None]. *)
Record Args : Type := mkArgs {
  arg_expr : string;
  arg_custom_expr_key : option string;
  arg_intensity : R;
  arg_idle_strength : R;
  arg_head_bone : string;
  arg_send_tracker : bool;
  arg_expr_smooth : R;
  arg_pose_smooth : R
}.

(** The variables the [while True] loop carries from one tick to the next. *)
Record LoopState : Type := mkLoopState {
  next_ok : R;
  last_time : R;
  blend_state : gmap string R;
  smoothed_pitch : R;
  smoothed_yaw : R;
  smoothed_roll : R;
  smoothed_root_y : R
}.

(** [frame_dt = max(1e-6, now - last_time)]. *)
Definition frame_dt_of (now last : R) : R := Rmax 1e-6 (now - last).

(** [1.0 - math.exp(-frame_dt / max(1e-3, smooth))], the gain of lines 257
    ([pose_alpha], with [args.pose_smooth]) and 269 ([expr_alpha], with
    [args.expr_smooth]). *)
Definition smooth_alpha (frame_dt smooth : R) : R :=
  1 - exp (- frame_dt / Rmax 1e-3 smooth).

Definition pose_alpha (frame_dt : R) (a : Args) : R := smooth_alpha frame_dt (arg_pose_smooth a).
Definition expr_alpha (frame_dt : R) (a : Args) : R := smooth_alpha frame_dt (arg_expr_smooth a).

(** [acc += (raw - acc) * alpha]. *)
Definition ease (acc raw alpha : R) : R := acc + (raw - acc) * alpha.

(** Initial loop variables (lines 233-242); the first heartbeat is due two
    seconds after [start]. *)
Definition initial_loop_state (start : R) : LoopState :=
  mkLoopState (start + 2) start (zero_dict BLEND_KEYS_TO_CLEAR) 0 0 0 0.

(** One iteration of the loop, with its two clock readings as inputs: [now]
    (line 245) and [tick_time], read inside [vmc.tick()] (line 70).  The
    result is the next loop variables and the messages sent, in order. *)
Definition loop_body (a : Args) (start now tick_time : R) (s : LoopState)
  : LoopState * list Message :=
  let t := now - start in
  let frame_dt := frame_dt_of now (last_time s) in
  let heartbeat := if Rle_dec (next_ok s) now then true else false in
  let next_ok' := if heartbeat then now + 2 else next_ok s in
  let '(root_y, pitch, yaw, roll) := compute_idle_pose t (arg_idle_strength a) in
  let pa := pose_alpha frame_dt a in
  let root_y' := ease (smoothed_root_y s) root_y pa in
  let pitch' := ease (smoothed_pitch s) pitch pa in
  let yaw' := ease (smoothed_yaw s) yaw pa in
  let roll' := ease (smoothed_roll s) roll pa in
  let head_q := quat_from_euler_xyz pitch' yaw' roll' in
  let '(blend', blend_sent) :=
    apply_expression_and_blink (arg_expr a) (arg_intensity a) (compute_blink t)
      (arg_custom_expr_key a) (Some (blend_state s)) (expr_alpha frame_dt a) in
  (mkLoopState next_ok' now blend' pitch' yaw' roll' root_y',
   (if heartbeat then [VMCSender.ok] else [])
     ++ [VMCSender.tick tick_time;
         VMCSender.root "root" 0 root_y' 0 (0, 0, 0, 1);
         VMCSender.bone (arg_head_bone a) 0 0 0 head_q]
     ++ (if arg_send_tracker a then [VMCSender.tracker (arg_head_bone a) 0 0 0 head_q] else [])
     ++ blend_sent).

(** The loop over a finite prefix of clock readings, one pair
    [(now, tick_time)] per iteration, from loop variables [s]. *)
Fixpoint run_loop (a : Args) (start : R) (readings : list (R * R)) (s : LoopState)
  : LoopState * list Message :=
  match readings with
  | [] => (s, [])
  | (now, tick_time) :: rest =>
      let '(s1, sent) := loop_body a start now tick_time s in
      let '(s2, sent') := run_loop a start rest s1 in
      (s2, sent ++ sent')
  end.

(** [main] from the first heartbeat (line 224) on: the heartbeat, then the
    loop started at clock reading [start]. *)
Definition main_run (a : Args) (start : R) (readings : list (R * R))
  : LoopState * list Message :=
  let '(s, sent) := run_loop a start readings (initial_loop_state start) in
  (s, VMCSender.ok :: sent).

(** [dt = 1.0 / max(1, args.fps)], the pause after each iteration. *)
Definition sleep_dt (fps : Z) : R := 1 / IZR (Z.max 1 fps).

(** ** Notions used in the statements *)

(** The value the easing loop stores for [key]. *)
Definition eased (target state : gmap string R) (a : R) (key : string) : R :=
  dict_get state key 0 + (dict_get target key 0 - dict_get state key 0) * a.

(** The state before the loop: the argument, or a fresh all-zero dictionary. *)
Definition state_or_default (state : option (gmap string R)) : gmap string R :=
  match state with
  | None => zero_dict BLEND_KEYS_TO_CLEAR
  | Some st => st
  end.

(** Names of the preset table. *)
Definition preset_names : list string := map fst EXPRESSION_PRESETS.

(** The target after the expression step (lines 165-171), before blink. *)
Definition expression_target (expr : string) (intensity : R)
    (custom_expr_key : option string) : gmap string R :=
  match truthy_key custom_expr_key with
  | Some key => <[key := clamp01 intensity]> (zero_dict BLEND_KEYS_TO_CLEAR)
  | None =>
      fold_left (fun tg '(name, value) => <[name := value * clamp01 intensity]> tg)
                (presets_get EXPRESSION_PRESETS expr) (zero_dict BLEND_KEYS_TO_CLEAR)
  end.

(** Every stored weight lies in [[0,1]]. *)
Definition unit_valued (d : gmap string R) : Prop :=
  map_Forall (fun _ v => 0 <= v <= 1) d.

(** Decides a closed membership, non-membership or (dis)equality of keys. *)
Ltac decide_key := apply (bool_decide_unpack _); vm_compute; exact I.

(** Resolves the tests [decide (k ∈ keys)] and [decide (k = k')] on closed keys. *)
Ltac resolve_keys :=
  repeat match goal with
    | |- context [decide (?k ∈ ?l)] =>
        first [ rewrite (decide_True (P := k ∈ l)) by decide_key
              | rewrite (decide_False (P := k ∈ l)) by decide_key ]
    end.

(** Case analysis on a membership [H : k ∈ [k1; ...; kn]] in a closed list. *)
Ltac each_key H :=
  repeat (apply elem_of_cons in H as [->|H]); [.. | by apply elem_of_nil in H].

(** The arguments of one call, apart from the state. *)
Record BlendCall : Type := mkBlendCall {
  call_expr : string;
  call_intensity : R;
  call_blink : R;
  call_custom_expr_key : option string;
  call_alpha : R
}.

(** The state returned by one call. *)
Definition call_update (c : BlendCall) (state : option (gmap string R)) : gmap string R :=
  (apply_expression_and_blink (call_expr c) (call_intensity c) (call_blink c)
     (call_custom_expr_key c) state (call_alpha c)).1.

(** A sequence of calls, each receiving the state the previous one returned. *)
Definition run_calls (calls : list BlendCall) (state : gmap string R) : gmap string R :=
  fold_left (fun st c => call_update c (Some st)) calls state.

(** Every recognized key is present with a weight in [[0,1]], and no other
    key is. *)
Definition blend_state_ok (st : gmap string R) : Prop :=
  (forall k : string, k ∈ BLEND_KEYS_TO_CLEAR -> exists v, st !! k = Some v /\ 0 <= v <= 1)
  /\ (forall k : string, is_Some (st !! k) -> k ∈ BLEND_KEYS_TO_CLEAR).

(** Two 4-tuples are equal when their components are. *)
Ltac quad_eq := apply f_equal2; [apply f_equal2; [apply f_equal2 |] |].

(** The smoothed angles and root height stay within the amplitudes of the
    idle motion. *)
Definition pose_within (a : Args) (s : LoopState) : Prop :=
  let m := Rabs (arg_idle_strength a) in
  Rabs (smoothed_root_y s) <= 0.01 * m
  /\ Rabs (smoothed_pitch s) <= 0.10 * m
  /\ Rabs (smoothed_yaw s) <= 0.14 * m
  /\ Rabs (smoothed_roll s) <= 0.06 * m.

(** The decay factor [1 - alpha] of one tick. *)
Definition decay (frame_dt smooth : R) : R := exp (- (frame_dt / Rmax 1e-3 smooth)).

(** Command-line defaults, with the pose smoothing constant set to half a
    millisecond. *)
Definition args_fast_pose : Args :=
  mkArgs "happy" None 1 1 "Head" false 0.25 0.0005.

(** * Properties *)

(** ** Dictionaries built by loops *)

Lemma fold_insert_const_lookup (v : R) (keys : list string) (d : gmap string R) (k : string) :
  fold_left (fun d k => <[k := v]> d) keys d !! k
  = if decide (k ∈ keys) then Some v else d !! k.
Proof.
  revert d. induction keys as [|k0 keys IH]; intros d; simpl.
  - destruct (decide (k ∈ [])) as [H|_]; [by apply elem_of_nil in H | done].
  - rewrite IH.
    destruct (decide (k ∈ keys)) as [Hin|Hnin], (decide (k ∈ k0 :: keys)) as [Hin'|Hnin'];
      try done.
    + exfalso. apply Hnin'. by right.
    + apply elem_of_cons in Hin' as [->|?]; [by rewrite lookup_insert_eq | done].
    + rewrite lookup_insert_ne; [done | intros ->; apply Hnin'; by left].
Qed.

Lemma zero_dict_lookup (keys : list string) (k : string) :
  zero_dict keys !! k = if decide (k ∈ keys) then Some 0 else None.
Proof. unfold zero_dict. by rewrite fold_insert_const_lookup, lookup_empty. Qed.

(** ** Scalar facts *)

Lemma clamp01_range (v : R) : 0 <= clamp01 v <= 1.
Proof.
  unfold clamp01, Rmax, Rmin.
  destruct (Rle_dec 1 v); destruct (Rle_dec 0 _); lra.
Qed.

Lemma clamp01_id (v : R) : 0 <= v <= 1 -> clamp01 v = v.
Proof.
  intros Hv. unfold clamp01, Rmax, Rmin.
  destruct (Rle_dec 1 v); destruct (Rle_dec 0 _); lra.
Qed.

Lemma clamp01_ge_1 (v : R) : 1 <= v -> clamp01 v = 1.
Proof.
  intros Hv. unfold clamp01, Rmax, Rmin.
  destruct (Rle_dec 1 v); destruct (Rle_dec 0 _); lra.
Qed.

Lemma clamp01_le_0 (v : R) : v <= 0 -> clamp01 v = 0.
Proof.
  intros Hv. unfold clamp01, Rmax, Rmin.
  destruct (Rle_dec 1 v); destruct (Rle_dec 0 _); lra.
Qed.

(** ** The easing loop *)

Lemma ease_fold_state (target : gmap string R) (a : R) (keys : list string) :
  forall (st : gmap string R) (sent : list Message) (k : string),
    NoDup keys ->
    (fold_left (ease_key target a) keys (st, sent)).1 !! k
    = if decide (k ∈ keys) then Some (eased target st a k) else st !! k.
Proof.
  induction keys as [|k0 keys IH]; intros st sent k Hnd; simpl.
  - destruct (decide (k ∈ [])) as [H|_]; [by apply elem_of_nil in H | done].
  - apply NoDup_cons in Hnd as [Hk0 Hnd].
    rewrite IH by done.
    destruct (decide (k ∈ keys)) as [Hin|Hnin], (decide (k ∈ k0 :: keys)) as [Hin'|Hnin'].
    + assert (k0 <> k) as Hne by (intros ->; done).
      unfold eased, dict_get. by rewrite lookup_insert_ne.
    + exfalso. apply Hnin'. by right.
    + apply elem_of_cons in Hin' as [->|?]; [by rewrite lookup_insert_eq | done].
    + rewrite lookup_insert_ne; [done | intros ->; apply Hnin'; by left].
Qed.

Lemma ease_fold_sent (target : gmap string R) (a : R) (keys : list string) :
  forall (st : gmap string R) (sent : list Message),
    NoDup keys ->
    (fold_left (ease_key target a) keys (st, sent)).2
    = sent ++ map (fun k => VMCSender.blend k (eased target st a k)) keys.
Proof.
  induction keys as [|k0 keys IH]; intros st sent Hnd; simpl.
  - by rewrite app_nil_r.
  - apply NoDup_cons in Hnd as [Hk0 Hnd].
    rewrite IH by done. rewrite <- app_assoc. simpl. do 2 f_equal.
    apply map_ext_in. intros k Hk. f_equal.
    assert (k0 <> k) as Hne by (intros ->; apply Hk0; by apply list_elem_of_In).
    unfold eased, dict_get. by rewrite lookup_insert_ne.
Qed.

Lemma BLEND_KEYS_TO_CLEAR_NoDup : NoDup BLEND_KEYS_TO_CLEAR.
Proof. apply (bool_decide_unpack _). vm_compute. exact I. Qed.

Lemma BLEND_KEYS_TO_CLEAR_length : length BLEND_KEYS_TO_CLEAR = 18%nat.
Proof. reflexivity. Qed.


(** What the call stores under each key of the returned dictionary. *)
Lemma apply_state_lookup expr intensity blink custom state alpha (k : string) :
  (apply_expression_and_blink expr intensity blink custom state alpha).1 !! k
  = if decide (k ∈ BLEND_KEYS_TO_CLEAR)
    then Some (eased (blend_target expr intensity blink custom)
                     (state_or_default state) (clamp01 alpha) k)
    else state_or_default state !! k.
Proof.
  unfold apply_expression_and_blink. fold (state_or_default state).
  pose proof (ease_fold_state (blend_target expr intensity blink custom) (clamp01 alpha)
                BLEND_KEYS_TO_CLEAR (state_or_default state) [] k BLEND_KEYS_TO_CLEAR_NoDup) as H.
  destruct (fold_left _ _ _) as [st' sent']. exact H.
Qed.

(** The messages of a call: one [Blend/Val] per recognized key, in the order
    of [BLEND_KEYS_TO_CLEAR], then one [Blend/Apply]. *)
Lemma apply_sent expr intensity blink custom state alpha :
  (apply_expression_and_blink expr intensity blink custom state alpha).2
  = map (fun k => VMCSender.blend k
                    (eased (blend_target expr intensity blink custom)
                           (state_or_default state) (clamp01 alpha) k))
        BLEND_KEYS_TO_CLEAR
    ++ [VMCSender.apply].
Proof.
  unfold apply_expression_and_blink. fold (state_or_default state).
  pose proof (ease_fold_sent (blend_target expr intensity blink custom) (clamp01 alpha)
                BLEND_KEYS_TO_CLEAR (state_or_default state) [] BLEND_KEYS_TO_CLEAR_NoDup) as H.
  destruct (fold_left _ _ _) as [st' sent']. simpl in *. by rewrite H.
Qed.

(** ** The target dictionary *)

Lemma presets_get_unknown (table : list (string * list (string * R))) (expr : string) :
  expr ∉ map fst table -> presets_get table expr = [].
Proof.
  induction table as [|[name pairs] rest IH]; intros Hnot; simpl; [done |].
  simpl in Hnot. apply not_elem_of_cons in Hnot as [Hne Hrest].
  destruct (String.eqb_spec name expr) as [->|_]; [done | by apply IH].
Qed.

(** Every lookup in the preset table yields one of its six lists, or the
    empty default. *)
Lemma presets_get_cases (expr : string) :
  let found := presets_get EXPRESSION_PRESETS expr in
  found = []
  \/ found = [("Joy", 1); ("happy", 1)]%string
  \/ found = [("Angry", 1); ("angry", 1)]%string
  \/ found = [("Sorrow", 1); ("sad", 1)]%string
  \/ found = [("Fun", 1); ("relaxed", 1)]%string
  \/ found = [("Surprised", 1); ("surprised", 1)]%string.
Proof.
  unfold EXPRESSION_PRESETS; cbn [presets_get].
  repeat (destruct (String.eqb _ expr); [tauto |]). tauto.
Qed.

Lemma blend_target_lookup expr intensity blink custom (k : string) :
  blend_target expr intensity blink custom !! k
  = if decide (k ∈ BLINK_KEYS) then Some (clamp01 blink)
    else expression_target expr intensity custom !! k.
Proof. unfold blend_target. by rewrite fold_insert_const_lookup. Qed.

Lemma unit_valued_insert (d : gmap string R) (k : string) (v : R) :
  0 <= v <= 1 -> unit_valued d -> unit_valued (<[k := v]> d).
Proof. intros Hv Hd. by apply map_Forall_insert_2. Qed.

Lemma unit_valued_fold_const (v : R) (keys : list string) (d : gmap string R) :
  0 <= v <= 1 -> unit_valued d -> unit_valued (fold_left (fun d k => <[k := v]> d) keys d).
Proof.
  intros Hv. revert d. induction keys as [|k keys IH]; intros d Hd; simpl; [done |].
  apply IH. by apply unit_valued_insert.
Qed.

Lemma unit_valued_get (d : gmap string R) (k : string) :
  unit_valued d -> 0 <= dict_get d k 0 <= 1.
Proof.
  intros Hd. unfold dict_get. destruct (d !! k) as [v|] eqn:Hk; simpl; [|lra].
  exact (Hd k v Hk).
Qed.

Lemma zero_dict_unit_valued (keys : list string) : unit_valued (zero_dict keys).
Proof. apply unit_valued_fold_const; [lra | apply map_Forall_empty]. Qed.

Lemma expression_target_unit_valued expr intensity custom :
  unit_valued (expression_target expr intensity custom).
Proof.
  pose proof (clamp01_range intensity) as Hc.
  pose proof (zero_dict_unit_valued BLEND_KEYS_TO_CLEAR) as Hz.
  unfold expression_target. set (z := zero_dict BLEND_KEYS_TO_CLEAR) in *. clearbody z.
  destruct (truthy_key custom) as [key|].
  - by apply unit_valued_insert.
  - destruct (presets_get_cases expr) as [H|[H|[H|[H|[H|H]]]]]; rewrite H; simpl;
      repeat (apply unit_valued_insert; [lra |]); exact Hz.
Qed.

Lemma blend_target_unit_valued expr intensity blink custom :
  unit_valued (blend_target expr intensity blink custom).
Proof.
  unfold blend_target. apply unit_valued_fold_const; [apply clamp01_range |].
  apply expression_target_unit_valued.
Qed.

Lemma eased_range (target state : gmap string R) (a : R) (k : string) :
  0 <= a <= 1 -> 0 <= dict_get target k 0 <= 1 -> 0 <= dict_get state k 0 <= 1 ->
  0 <= eased target state a k <= 1.
Proof. unfold eased. intros Ha Ht Hs. nra. Qed.

(** ** Concrete keys *)

Lemma eased_snap (target state : gmap string R) (k : string) :
  eased target state 1 k = dict_get target k 0.
Proof. unfold eased. lra. Qed.


Lemma clamp01_1 : clamp01 1 = 1.
Proof. apply clamp01_id. lra. Qed.

Lemma clamp01_0 : clamp01 0 = 0.
Proof. apply clamp01_id. lra. Qed.

(** ** Scenarios of the blend update *)

(** C1 (the code departs from the claim): with the explicit key
    ["MyCustomBlend"], intensity 0.5 and alpha 1, on a call without prior
    state, the target dictionary does hold [MyCustomBlend = 0.5], but the
    easing loop only visits [BLEND_KEYS_TO_CLEAR]: the returned state has no
    entry for [MyCustomBlend] and no [Blend/Val] message carries it.  The
    preset keys are all 0, as claimed. *)
Theorem custom_key_outside_recognized_set_is_dropped (expr : string) (blink : R) :
  let key := "MyCustomBlend"%string in
  let result := apply_expression_and_blink expr 0.5 blink (Some key) None 1 in
  blend_target expr 0.5 blink (Some key) !! key = Some 0.5
  /\ result.1 !! key = None
  /\ (forall v, VMCSender.blend key v ∉ result.2)
  /\ Forall (fun k => result.1 !! k = Some 0)
       ["Joy"; "happy"; "Angry"; "angry"; "Sorrow"; "sad"; "Fun"; "relaxed";
        "Surprised"; "surprised"]%string.
Proof.
  intros key result. subst key result. split; [|split; [|split]].
  - rewrite blend_target_lookup. resolve_keys.
    unfold expression_target; cbn [truthy_key]. rewrite lookup_insert_eq.
    f_equal. apply clamp01_id. lra.
  - rewrite apply_state_lookup. resolve_keys. cbn [state_or_default].
    rewrite zero_dict_lookup. resolve_keys. reflexivity.
  - intros v. rewrite apply_sent. intros Hin.
    apply elem_of_app in Hin as [Hin|Hin].
    + apply list_elem_of_In, in_map_iff in Hin as (k & Heq & Hk).
      injection Heq as Hname _. subst k. revert Hk. rewrite <- list_elem_of_In.
      decide_key.
    + apply list_elem_of_singleton in Hin. discriminate Hin.
  - apply Forall_forall. intros k Hk. each_key Hk;
      rewrite apply_state_lookup; resolve_keys; rewrite clamp01_1, eased_snap;
      unfold dict_get; rewrite blend_target_lookup; resolve_keys;
      unfold expression_target; cbn [truthy_key];
      (rewrite lookup_insert_ne by discriminate);
      rewrite zero_dict_lookup; resolve_keys; reflexivity.
Qed.

(** What the target dictionary holds after the expression step when an
    explicit, non-empty key is given: that key carries the clamped
    intensity and every other entry is as initialised. *)
Lemma expression_target_lookup_custom intensity expr (key k : string) :
  key <> EmptyString ->
  expression_target expr intensity (Some key) !! k
  = if decide (k = key) then Some (clamp01 intensity)
    else zero_dict BLEND_KEYS_TO_CLEAR !! k.
Proof.
  intros Hkey. unfold expression_target.
  assert (truthy_key (Some key) = Some key) as -> by (by destruct key).
  destruct (decide (k = key)) as [->|Hne];
    [by rewrite lookup_insert_eq | by rewrite lookup_insert_ne].
Qed.





Lemma presets_get_happy :
  presets_get EXPRESSION_PRESETS "happy" = [("Joy", 1); ("happy", 1)]%string.
Proof. reflexivity. Qed.

Lemma presets_get_neutral : presets_get EXPRESSION_PRESETS "neutral" = [].
Proof. reflexivity. Qed.

(** C5: expression ["happy"], intensity 1, alpha 1, blink 0 and no explicit
    key: whatever the prior state, the returned state has [Joy = 1] and
    [happy = 1] and every other recognized non-blink key at 0; on a call
    without prior state these are all the non-blink keys of the result. *)
Theorem happy_full_intensity (state : option (gmap string R)) :
  let result := (apply_expression_and_blink "happy" 1 0 None state 1).1 in
  let fresh := (apply_expression_and_blink "happy" 1 0 None None 1).1 in
  result !! "Joy"%string = Some 1
  /\ result !! "happy"%string = Some 1
  /\ (forall k : string,
        k ∈ BLEND_KEYS_TO_CLEAR -> k ∉ BLINK_KEYS ->
        k <> "Joy"%string -> k <> "happy"%string ->
        result !! k = Some 0)
  /\ (forall (k : string) (v : R),
        fresh !! k = Some v -> k ∉ BLINK_KEYS ->
        k <> "Joy"%string -> k <> "happy"%string ->
        v = 0).
Proof.
  intros result fresh.
  assert (forall st (k : string),
             k ∈ BLEND_KEYS_TO_CLEAR -> k ∉ BLINK_KEYS ->
             (apply_expression_and_blink "happy" 1 0 None st 1).1 !! k
             = Some (if decide (k ∈ ["Joy"; "happy"]%string) then 1 else 0)) as Hval.
  { intros st k Hk Hnb.
    rewrite apply_state_lookup, decide_True, clamp01_1, eased_snap by done.
    unfold dict_get. rewrite blend_target_lookup, decide_False by done.
    unfold expression_target; cbn [truthy_key]. rewrite presets_get_happy.
    cbn [fold_left]. rewrite clamp01_1.
    each_key Hk; first [ exfalso; apply Hnb; decide_key
                       | resolve_keys; rewrite ?lookup_insert_eq;
                         repeat (rewrite lookup_insert_ne by discriminate);
                         rewrite ?lookup_insert_eq, ?zero_dict_lookup;
                         resolve_keys; cbn [default from_option Datatypes.id]; f_equal; lra ]. }
  subst result fresh. split; [|split; [|split]].
  - rewrite Hval by decide_key. resolve_keys. reflexivity.
  - rewrite Hval by decide_key. resolve_keys. reflexivity.
  - intros k Hk Hnb HJ Hh. rewrite Hval by done.
    rewrite decide_False; [done |].
    rewrite !elem_of_cons, elem_of_nil. tauto.
  - intros k v Hkv Hnb HJ Hh.
    destruct (decide (k ∈ BLEND_KEYS_TO_CLEAR)) as [Hk|Hk].
    + rewrite Hval in Hkv by done.
      rewrite decide_False in Hkv; [congruence |].
      rewrite !elem_of_cons, elem_of_nil. tauto.
    + rewrite apply_state_lookup, decide_False in Hkv by exact Hk.
      cbn [state_or_default] in Hkv.
      rewrite zero_dict_lookup, decide_False in Hkv by exact Hk. discriminate.
Qed.

(** The hypotheses of [happy_full_intensity] at the key ["sad"]. *)
Lemma happy_full_intensity_witness :
  ("sad"%string ∈ BLEND_KEYS_TO_CLEAR /\ "sad"%string ∉ BLINK_KEYS)
  /\ (apply_expression_and_blink "happy" 1 0 None None 1).1 !! "sad"%string = Some 0.
Proof.
  assert ("sad"%string ∈ BLEND_KEYS_TO_CLEAR) as Hin by decide_key.
  assert ("sad"%string ∉ BLINK_KEYS) as Hnb by decide_key.
  split; [by split |].
  apply (proj1 (proj2 (proj2 (happy_full_intensity None))) "sad"%string Hin Hnb);
    discriminate.
Defined.

(** C6: an expression name outside the preset table, without explicit key,
    raises nothing ([presets_get] falls back to the empty list): the call
    returns the same state and sends the same messages as with ["neutral"],
    every non-blink target reads 0, and with blink 0 and alpha 1 every
    recognized non-blink key of the returned state is 0. *)
Theorem unknown_expression_is_neutral expr intensity blink custom state alpha :
  expr ∉ preset_names ->
  truthy_key custom = None ->
  apply_expression_and_blink expr intensity blink custom state alpha
  = apply_expression_and_blink "neutral" intensity blink custom state alpha
  /\ (forall k : string,
        k ∉ BLINK_KEYS -> dict_get (blend_target expr intensity blink custom) k 0 = 0)
  /\ (forall k : string,
        k ∈ BLEND_KEYS_TO_CLEAR -> k ∉ BLINK_KEYS ->
        (apply_expression_and_blink expr intensity 0 custom state 1).1 !! k = Some 0).
Proof.
  intros Hunknown Hcustom.
  pose proof (presets_get_unknown EXPRESSION_PRESETS expr Hunknown) as Hget.
  assert (forall b, blend_target expr intensity b custom
                    = blend_target "neutral" intensity b custom) as Htarget.
  { intros b. unfold blend_target. rewrite Hcustom, Hget, presets_get_neutral.
    reflexivity. }
  assert (forall b (k : string),
             k ∉ BLINK_KEYS -> dict_get (blend_target expr intensity b custom) k 0 = 0)
    as Hzero.
  { intros b k Hnb. unfold dict_get.
    rewrite blend_target_lookup, decide_False by done.
    unfold expression_target. rewrite Hcustom, Hget. cbn [fold_left].
    rewrite zero_dict_lookup.
    destruct (decide (k ∈ BLEND_KEYS_TO_CLEAR)); reflexivity. }
  split; [|split].
  - unfold apply_expression_and_blink. rewrite Htarget. reflexivity.
  - apply Hzero.
  - intros k Hk Hnb.
    rewrite apply_state_lookup, decide_True, clamp01_1, eased_snap by exact Hk.
    rewrite Hzero by exact Hnb. reflexivity.
Qed.

(** The hypotheses of [unknown_expression_is_neutral] at the name ["bogus"]. *)
Lemma unknown_expression_is_neutral_witness :
  (("bogus"%string ∉ preset_names) /\ truthy_key None = None)
  /\ apply_expression_and_blink "bogus" 1 0 None None 1
     = apply_expression_and_blink "neutral" 1 0 None None 1.
Proof.
  assert ("bogus"%string ∉ preset_names) as Hunknown.
  { unfold preset_names, EXPRESSION_PRESETS. cbn [map fst]. decide_key. }
  split; [split; [exact Hunknown | reflexivity] |].
  exact (proj1 (unknown_expression_is_neutral "bogus" 1 0 None None 1 Hunknown eq_refl)).
Defined.

(** ** The blend state across calls *)

Lemma zero_dict_ok : blend_state_ok (zero_dict BLEND_KEYS_TO_CLEAR).
Proof.
  split; intros k Hk.
  - exists 0. rewrite zero_dict_lookup, decide_True by exact Hk.
    split; [reflexivity | lra].
  - rewrite zero_dict_lookup in Hk.
    destruct (decide (k ∈ BLEND_KEYS_TO_CLEAR)) as [Hin | _]; [exact Hin |].
    destruct Hk as [v Hv]. discriminate Hv.
Qed.

Lemma call_update_ok (c : BlendCall) (st : gmap string R) :
  blend_state_ok st -> blend_state_ok (call_update c (Some st)).
Proof.
  intros [Hval Hdom]. unfold call_update. split; intros k Hk.
  - rewrite apply_state_lookup, decide_True by exact Hk.
    eexists; split; [reflexivity |].
    apply eased_range.
    + apply clamp01_range.
    + apply unit_valued_get, blend_target_unit_valued.
    + cbn [state_or_default]. destruct (Hval k Hk) as (v & Hv & Hrange).
      unfold dict_get. rewrite Hv. exact Hrange.
  - rewrite apply_state_lookup in Hk.
    destruct (decide (k ∈ BLEND_KEYS_TO_CLEAR)) as [Hin | _]; [exact Hin |].
    apply Hdom. exact Hk.
Qed.

(** A property kept by every step of a left fold is kept by the fold. *)
Lemma fold_left_invariant {A B : Type} (P : A -> Prop) (f : A -> B -> A) (l : list B) :
  (forall a b, P a -> P (f a b)) -> forall a, P a -> P (fold_left f l a).
Proof.
  intros Hstep. induction l as [|b l IH]; intros a Ha; cbn [fold_left].
  - exact Ha.
  - apply IH, Hstep, Ha.
Qed.

Lemma run_calls_ok (calls : list BlendCall) (st : gmap string R) :
  blend_state_ok st -> blend_state_ok (run_calls calls st).
Proof.
  intros Hst. unfold run_calls.
  apply (fold_left_invariant blend_state_ok (fun st c => call_update c (Some st))).
  - intros a b Ha. apply call_update_ok, Ha.
  - exact Hst.
Qed.

(** A call never removes a key, whatever the state it is given. *)
Lemma call_update_keeps_keys (c : BlendCall) (state : option (gmap string R)) (k : string) :
  is_Some (state_or_default state !! k) -> is_Some (call_update c state !! k).
Proof.
  intros Hk. unfold call_update. rewrite apply_state_lookup.
  destruct (decide (k ∈ BLEND_KEYS_TO_CLEAR)); [eexists; reflexivity | exact Hk].
Qed.

(** C10: the initial state maps each of the 18 recognized keys to 0; a call
    without prior state is a call on that initial state; and after any
    sequence of calls from it, with arbitrary arguments, every recognized key
    is present with a value in [[0,1]] and the state has no other key. *)
Theorem blend_state_invariant (calls : list BlendCall) :
  let initial := zero_dict BLEND_KEYS_TO_CLEAR in
  let final := run_calls calls initial in
  length BLEND_KEYS_TO_CLEAR = 18%nat
  /\ Forall (fun k => initial !! k = Some 0) BLEND_KEYS_TO_CLEAR
  /\ (forall c, call_update c None = call_update c (Some initial))
  /\ Forall (fun k => exists v, final !! k = Some v /\ 0 <= v <= 1) BLEND_KEYS_TO_CLEAR
  /\ (forall k : string, is_Some (final !! k) <-> k ∈ BLEND_KEYS_TO_CLEAR).
Proof.
  intros initial final.
  destruct (run_calls_ok calls initial zero_dict_ok) as [Hval Hdom].
  split; [exact BLEND_KEYS_TO_CLEAR_length |]. split; [|split; [|split]].
  - apply Forall_forall. intros k Hk. subst initial.
    rewrite zero_dict_lookup. apply decide_True, Hk.
  - intros c. unfold call_update, apply_expression_and_blink. reflexivity.
  - apply Forall_forall. intros k Hk. apply Hval, Hk.
  - intros k. split; [apply Hdom |].
    intros Hk. destruct (Hval k Hk) as (v & Hv & _). exists v. exact Hv.
Qed.

(** ** Blink oscillator *)

(** The remainder lies in [[0, p)] for a positive divisor. *)
Lemma py_mod_range (x p : R) : 0 < p -> 0 <= py_mod x p < p.
Proof.
  intros Hp. unfold py_mod.
  destruct (base_Int_part (x / p)) as [Hlo Hhi].
  set (n := IZR (Int_part (x / p))) in *.
  assert (x = x / p * p) as Hx by (field; lra).
  assert (0 <= (x / p - n) * p) as H1 by (apply Rmult_le_pos; lra).
  assert ((x / p - n) * p < 1 * p) as H2 by (apply Rmult_lt_compat_r; lra).
  split; nra.
Qed.

(** A value already in [[0, p)] is its own remainder. *)
Lemma py_mod_small (x p : R) : 0 <= x < p -> py_mod x p = x.
Proof.
  intros [Hlo Hhi]. unfold py_mod.
  assert (0 < p) as Hp by lra.
  assert (0 <= x / p) as H1 by (apply Rmult_le_pos; [lra | left; apply Rinv_0_lt_compat, Hp]).
  assert (x / p < 1) as H2.
  { apply (Rmult_lt_reg_r p); [exact Hp |]. replace (x / p * p) with x by (field; lra). lra. }
  rewrite <- (Int_part_spec (x / p) 0) by (simpl; lra).
  simpl. lra.
Qed.

(** Adding whole periods does not change the remainder. *)
Lemma py_mod_add_periods (x p : R) (k : Z) :
  0 < p -> py_mod (x + IZR k * p) p = py_mod x p.
Proof.
  intros Hp. unfold py_mod.
  replace ((x + IZR k * p) / p) with (x / p + IZR k) by (field; lra).
  destruct (base_Int_part (x / p)) as [Hlo Hhi].
  rewrite <- (Int_part_spec (x / p + IZR k) (Int_part (x / p) + k)).
  - rewrite plus_IZR. ring.
  - rewrite plus_IZR. lra.
Qed.

Lemma compute_blink_range (t : R) : 0 <= compute_blink t <= 1.
Proof.
  unfold compute_blink.
  destruct (py_mod_range t 3.2) as [Hlo _]; [lra |].
  destruct (Rlt_dec (py_mod t 3.2) 0.11) as [Hlt | _]; [| lra].
  set (ph := py_mod t 3.2) in *.
  unfold Rabs. destruct (Rcase_abs (ph / 0.11 * 2 - 1)); lra.
Qed.

Lemma compute_blink_pulse (t : R) :
  py_mod t 3.2 < 0.11 ->
  compute_blink t = 1 - Rabs (2 * py_mod t 3.2 / 0.11 - 1).
Proof.
  intros Hlt. unfold compute_blink.
  destruct (Rlt_dec (py_mod t 3.2) 0.11) as [_ | Hn]; [| contradiction].
  f_equal. f_equal. lra.
Qed.

Lemma compute_blink_rest (t : R) : 0.11 <= py_mod t 3.2 -> compute_blink t = 0.
Proof.
  intros Hge. unfold compute_blink.
  destruct (Rlt_dec (py_mod t 3.2) 0.11) as [Hlt | _]; [lra | reflexivity].
Qed.

Lemma compute_blink_periodic (t : R) (k : Z) :
  compute_blink (t + IZR k * 3.2) = compute_blink t.
Proof. unfold compute_blink. rewrite py_mod_add_periods by lra. reflexivity. Qed.

Lemma compute_blink_0 : compute_blink 0 = 0.
Proof.
  assert (py_mod 0 3.2 = 0) as H0 by (apply py_mod_small; lra).
  rewrite compute_blink_pulse by lra. rewrite H0.
  replace (2 * 0 / 0.11 - 1) with (- (1)) by lra.
  rewrite Rabs_Ropp, Rabs_R1. lra.
Qed.

(** C2, as stated: the blink weight at [t = 0] is claimed to be 1.  The
    phase is 0 there, the start of the pulse, and the weight is 0. *)
Lemma blink_at_zero_is_not_one : compute_blink 0 = 0 /\ compute_blink 0 <> 1.
Proof. rewrite compute_blink_0. split; [reflexivity | lra]. Qed.

(** C2, amended: the blink weight is 0 at [t = 0], reaches its peak 1 at the
    midpoint [t = 0.055] of the pulse, is 0 at [t = 0.11], and has the same
    value at [t = 3.2] as at [t = 0]; for every [t] the phase [t mod 3.2] lies
    in [[0, 3.2)], the weight lies in [[0,1]], equals
    [1 - |2*phase/0.11 - 1|] while the phase is below 0.11 and is 0 for the
    rest of the period. *)
Theorem blink_oscillator :
  compute_blink 0 = 0
  /\ compute_blink 0.055 = 1
  /\ compute_blink 0.11 = 0
  /\ compute_blink 3.2 = compute_blink 0
  /\ (forall t : R,
        let phase := py_mod t 3.2 in
        0 <= phase < 3.2
        /\ 0 <= compute_blink t <= 1
        /\ (phase < 0.11 -> compute_blink t = 1 - Rabs (2 * phase / 0.11 - 1))
        /\ (0.11 <= phase -> compute_blink t = 0)).
Proof.
  split; [exact compute_blink_0 |]. split; [|split; [|split]].
  - assert (py_mod 0.055 3.2 = 0.055) as Hph by (apply py_mod_small; lra).
    rewrite compute_blink_pulse by lra. rewrite Hph.
    replace (2 * 0.055 / 0.11 - 1) with 0 by lra.
    rewrite Rabs_R0. lra.
  - apply compute_blink_rest. rewrite py_mod_small; lra.
  - replace 3.2 with (0 + IZR 1 * 3.2) at 1 by lra.
    apply compute_blink_periodic.
  - intros t phase. subst phase. split; [apply py_mod_range; lra |].
    split; [apply compute_blink_range |].
    split; [apply compute_blink_pulse | apply compute_blink_rest].
Qed.

(** The pulse formula of [blink_oscillator] a quarter of the way into the
    pulse, where its hypothesis on the phase holds. *)
Lemma blink_oscillator_witness :
  py_mod 0.0275 3.2 < 0.11
  /\ compute_blink 0.0275 = 1 - Rabs (2 * py_mod 0.0275 3.2 / 0.11 - 1).
Proof.
  assert (py_mod 0.0275 3.2 < 0.11) as Hph by (rewrite py_mod_small; lra).
  split; [exact Hph |].
  apply (proj1 (proj2 (proj2 (proj2 (proj2 (proj2 (proj2 blink_oscillator))) 0.0275)))).
  exact Hph.
Defined.

(** ** Quaternion builder *)

Lemma half_angle_unit (x : R) : cos (x / 2) * cos (x / 2) + sin (x / 2) * sin (x / 2) = 1.
Proof. pose proof (sin2_cos2 (x / 2)) as H. unfold Rsqr in H. lra. Qed.

(** C7: for zero angles the result is the identity quaternion [(0,0,0,1)],
    and for all real angles the four components have squares summing to 1.
    The builder is a function of its three arguments alone.  Angles and
    components are real numbers here, so the norm is exactly 1. *)
Theorem quat_from_euler_xyz_unit_norm (rx ry rz : R) :
  quat_from_euler_xyz 0 0 0 = (0, 0, 0, 1)
  /\ (let '(qx, qy, qz, qw) := quat_from_euler_xyz rx ry rz in
      qx * qx + qy * qy + qz * qz + qw * qw = 1).
Proof.
  split.
  - unfold quat_from_euler_xyz. replace (0 / 2) with 0 by lra.
    rewrite sin_0, cos_0. cbv zeta. quad_eq; ring.
  - unfold quat_from_euler_xyz. cbv zeta.
    pose proof (half_angle_unit rx) as Hx.
    pose proof (half_angle_unit ry) as Hy.
    pose proof (half_angle_unit rz) as Hz.
    set (cx := cos (rx / 2)) in *. set (sx := sin (rx / 2)) in *.
    set (cy := cos (ry / 2)) in *. set (sy := sin (ry / 2)) in *.
    set (cz := cos (rz / 2)) in *. set (sz := sin (rz / 2)) in *.
    transitivity ((cx * cx + sx * sx) * (cy * cy + sy * sy) * (cz * cz + sz * sz));
      [ring |].
    rewrite Hx, Hy, Hz. ring.
Qed.

(** ** Idle pose generator *)

(** C8: the four outputs are [0.01*s*sin(1.30*t)], [0.10*s*sin(1.10*t)],
    [0.14*s*sin(0.75*t)] and [0.06*s*sin(0.50*t)], in the order root_y,
    pitch, yaw, roll; strength 0 gives four zeros; doubling the strength
    doubles each output; a negative strength is accepted and negates each
    output. *)
Theorem compute_idle_pose_formula (t s : R) :
  compute_idle_pose t s
  = (0.01 * s * sin (1.30 * t), 0.10 * s * sin (1.10 * t),
     0.14 * s * sin (0.75 * t), 0.06 * s * sin (0.50 * t))
  /\ compute_idle_pose t 0 = (0, 0, 0, 0)
  /\ (let '(root_y, pitch, yaw, roll) := compute_idle_pose t s in
      compute_idle_pose t (2 * s) = (2 * root_y, 2 * pitch, 2 * yaw, 2 * roll))
  /\ (let '(root_y, pitch, yaw, roll) := compute_idle_pose t s in
      compute_idle_pose t (- s) = (- root_y, - pitch, - yaw, - roll)).
Proof.
  unfold compute_idle_pose. cbv zeta.
  rewrite !(Rmult_comm t).
  split; [|split; [|split]]; quad_eq; ring.
Qed.

(** ** Exponential smoothing *)

Lemma Rmax_floor_pos (smooth : R) : 0 < Rmax 1e-3 smooth.
Proof. pose proof (Rmax_l 1e-3 smooth). lra. Qed.

Lemma smooth_alpha_decay (frame_dt smooth : R) :
  smooth_alpha frame_dt smooth = 1 - decay frame_dt smooth.
Proof.
  unfold smooth_alpha, decay. do 2 f_equal.
  pose proof (Rmax_floor_pos smooth). field. lra.
Qed.

Lemma decay_bounds (frame_dt smooth : R) :
  0 < frame_dt ->
  let tau := Rmax 1e-3 smooth in
  0 < decay frame_dt smooth < 1
  /\ 1 - frame_dt / tau <= decay frame_dt smooth
  /\ decay frame_dt smooth <= tau / (tau + frame_dt).
Proof.
  intros Hdt tau. unfold decay. fold tau.
  assert (0 < tau) as Htau by apply Rmax_floor_pos.
  assert (0 < frame_dt / tau) as Hx by (apply Rdiv_lt_0_compat; lra).
  set (x := frame_dt / tau) in *.
  split; [split |]; [apply exp_pos | | split].
  - rewrite <- exp_0. apply exp_increasing. lra.
  - pose proof (exp_ineq1_le (- x)). lra.
  - rewrite exp_Ropp.
    replace (tau / (tau + frame_dt)) with (/ (1 + x)) by (unfold x; field; lra).
    apply Rinv_le_contravar; [lra | apply exp_ineq1_le].
Qed.

Lemma smooth_alpha_range (frame_dt smooth : R) :
  0 < frame_dt -> 0 < smooth_alpha frame_dt smooth < 1.
Proof.
  intros Hdt. rewrite smooth_alpha_decay.
  destruct (decay_bounds frame_dt smooth Hdt) as [[H0 H1] _]. lra.
Qed.

(** A smoothing constant at or above the floor is used as given. *)
Lemma smooth_alpha_above_floor (frame_dt smooth : R) :
  1e-3 <= smooth -> smooth_alpha frame_dt smooth = 1 - exp (- frame_dt / smooth).
Proof. intros H. unfold smooth_alpha. rewrite Rmax_right by exact H. reflexivity. Qed.

(** A smoothing constant at or below the floor is replaced by the floor. *)
Lemma smooth_alpha_below_floor (frame_dt smooth : R) :
  smooth <= 1e-3 -> smooth_alpha frame_dt smooth = 1 - exp (- frame_dt / 1e-3).
Proof. intros H. unfold smooth_alpha. rewrite Rmax_left by exact H. reflexivity. Qed.

(** What one step leaves of the distance to the raw value, and how far it
    moves. *)
Lemma ease_distance (acc raw alpha : R) :
  raw - ease acc raw alpha = (raw - acc) * (1 - alpha)
  /\ ease acc raw alpha - acc = (raw - acc) * alpha.
Proof. unfold ease. split; ring. Qed.

Lemma ease_between (acc raw alpha : R) :
  0 <= alpha <= 1 -> Rmin acc raw <= ease acc raw alpha <= Rmax acc raw.
Proof.
  intros [H0 H1]. unfold ease, Rmin, Rmax.
  destruct (Rle_dec acc raw) as [Hle | Hgt]; split; nra.
Qed.

(** C9, as stated: the gain is claimed to be [1 - exp(-frame_dt / tau)] for
    the configured [tau], snapping as [tau] goes to 0.  With
    [tau = 0.0005] and a tick of one millisecond the gain is [1 - exp(-1)],
    not [1 - exp(-2)], and a step from 0 toward 1 reaches at most 2/3. *)
Lemma pose_gain_differs_below_floor :
  pose_alpha 0.001 args_fast_pose = 1 - exp (- (1))
  /\ pose_alpha 0.001 args_fast_pose <> 1 - exp (- 0.001 / arg_pose_smooth args_fast_pose)
  /\ ease 0 1 (pose_alpha 0.001 args_fast_pose) <= 2 / 3.
Proof.
  assert (pose_alpha 0.001 args_fast_pose = 1 - exp (- (1))) as Hgain.
  { unfold pose_alpha, args_fast_pose. cbn [arg_pose_smooth].
    rewrite smooth_alpha_below_floor by lra. do 2 f_equal. lra. }
  rewrite Hgain. split; [reflexivity |]. split.
  - unfold args_fast_pose. cbn [arg_pose_smooth].
    replace (- 0.001 / 0.0005) with (- (2)) by lra.
    pose proof (exp_increasing (- (2)) (- (1))). lra.
  - unfold ease. rewrite exp_Ropp.
    pose proof exp_le_3 as H3. pose proof (exp_pos 1) as Hpos.
    assert (/ 3 <= / exp 1) by (apply Rinv_le_contravar; lra). lra.
Qed.

(** C9, amended: the gain is [1 - exp(-frame_dt / max(0.001, tau))] for the
    configured [tau]: [tau] itself from 0.001 upward, and 0.001 below that,
    so that shrinking [tau] further changes nothing and no tick snaps.  For
    a positive [frame_dt] the gain lies strictly between 0 and 1; one step
    lands between the old value and the raw value and no farther from the
    raw value than before; the step is at most [frame_dt / max(0.001, tau)]
    of the distance, so it vanishes with [frame_dt]; and the distance left
    is at most the fraction [tau' / (tau' + frame_dt)] of the old one, with
    [tau' = max(0.001, tau)], so it vanishes as [frame_dt] grows. *)
Theorem pose_smoother_step (a : Args) (frame_dt acc raw : R) :
  0 < frame_dt ->
  let tau := Rmax 1e-3 (arg_pose_smooth a) in
  let alpha := pose_alpha frame_dt a in
  let next := ease acc raw alpha in
  alpha = 1 - exp (- frame_dt / tau)
  /\ (1e-3 <= arg_pose_smooth a -> alpha = 1 - exp (- frame_dt / arg_pose_smooth a))
  /\ (arg_pose_smooth a <= 1e-3 -> alpha = 1 - exp (- frame_dt / 1e-3))
  /\ 0 < alpha < 1
  /\ Rmin acc raw <= next <= Rmax acc raw
  /\ Rabs (raw - next) <= Rabs (raw - acc)
  /\ Rabs (next - acc) <= frame_dt / tau * Rabs (raw - acc)
  /\ Rabs (raw - next) <= tau / (tau + frame_dt) * Rabs (raw - acc).
Proof.
  intros Hdt tau alpha next. subst next alpha. unfold pose_alpha.
  set (smooth := arg_pose_smooth a) in *.
  destruct (decay_bounds frame_dt smooth Hdt) as ([Hd0 Hd1] & Hlow & Hhigh).
  fold tau in Hlow, Hhigh.
  pose proof (smooth_alpha_range frame_dt smooth Hdt) as Hrange.
  pose proof (smooth_alpha_decay frame_dt smooth) as Hdecay.
  destruct (ease_distance acc raw (smooth_alpha frame_dt smooth)) as [Hleft Hmoved].
  set (al := smooth_alpha frame_dt smooth) in *.
  set (d := decay frame_dt smooth) in *.
  pose proof (Rabs_pos (raw - acc)) as Hpos.
  split; [reflexivity |].
  split; [apply smooth_alpha_above_floor |].
  split; [apply smooth_alpha_below_floor |].
  split; [exact Hrange |].
  split; [apply ease_between; lra |].
  rewrite Hleft, Hmoved, !Rabs_mult.
  rewrite (Rabs_pos_eq (1 - al)) by lra. rewrite (Rabs_pos_eq al) by lra.
  split; [nra |]. split.
  - rewrite (Rmult_comm (frame_dt / tau)).
    apply Rmult_le_compat_l; [exact Hpos | lra].
  - rewrite (Rmult_comm (tau / (tau + frame_dt))).
    apply Rmult_le_compat_l; [exact Hpos | lra].
Qed.

(** The hypothesis of [pose_smoother_step] at the default smoothing constant
    and a 30 Hz tick. *)
Lemma pose_smoother_step_witness :
  0 < / 30
  /\ Rmin 0 1 <= ease 0 1 (pose_alpha (/ 30) (mkArgs "happy" None 1 1 "Head" false 0.25 0.20))
     <= Rmax 0 1.
Proof.
  assert (0 < / 30) as Hdt by lra.
  split; [exact Hdt |].
  exact (proj1 (proj2 (proj2 (proj2 (proj2
    (pose_smoother_step (mkArgs "happy" None 1 1 "Head" false 0.25 0.20) (/ 30) 0 1 Hdt)))))).
Defined.

(** * Further properties *)

(** ** Client pair *)

Lemma transmit_cons (c : DualClient.t) (m : Message) (msgs : list Message) :
  transmit c (m :: msgs) = DualClient.send c m ++ transmit c msgs.
Proof. reflexivity. Qed.

(** X1: without a mirror every message becomes exactly one datagram, to the
    primary endpoint; with a mirror at another endpoint the primary and the
    mirror each receive the whole message sequence, in the order sent, and
    the number of datagrams doubles. *)
Theorem mirror_receives_same_stream (c : DualClient.t) (msgs : list Message) :
  (DualClient.mirror c = None ->
   transmit c msgs = map (fun m => (DualClient.primary c, m)) msgs)
  /\ (forall e : Endpoint,
        DualClient.mirror c = Some e -> e <> DualClient.primary c ->
        received (DualClient.primary c) (transmit c msgs) = msgs
        /\ received e (transmit c msgs) = msgs
        /\ length (transmit c msgs) = (2 * length msgs)%nat).
Proof.
  split.
  - intros Hnone. induction msgs as [|m msgs IH]; [reflexivity |].
    rewrite transmit_cons, IH. unfold DualClient.send. rewrite Hnone. reflexivity.
  - intros e Hsome Hne.
    induction msgs as [|m msgs IH]; [by repeat split |].
    destruct IH as (IHp & IHm & IHlen).
    rewrite transmit_cons. unfold DualClient.send. rewrite Hsome.
    unfold received in *. cbn [app].
    rewrite !filter_cons. cbn [fst].
    rewrite (decide_True (P := DualClient.primary c = DualClient.primary c)) by reflexivity.
    rewrite (decide_False (P := e = DualClient.primary c)) by exact Hne.
    rewrite (decide_False (P := DualClient.primary c = e)) by (intros Heq; apply Hne; symmetry; exact Heq).
    rewrite (decide_True (P := e = e)) by reflexivity.
    cbn [map snd length]. rewrite IHp, IHm, IHlen.
    repeat split; try reflexivity. lia.
Qed.

(** The hypotheses of [mirror_receives_same_stream] for a mirror on the
    local listener port. *)
Lemma mirror_receives_same_stream_witness :
  let c := DualClient.init "127.0.0.1" 39540 (Some "127.0.0.1"%string) (Some 39541%Z) in
  let e := mkEndpoint "127.0.0.1" 39541 in
  DualClient.mirror c = Some e
  /\ e <> DualClient.primary c
  /\ received e (transmit c [VMCSender.ok; VMCSender.apply]) = [VMCSender.ok; VMCSender.apply].
Proof.
  intros c e.
  assert (DualClient.mirror c = Some e) as Hsome by reflexivity.
  assert (e <> DualClient.primary c) as Hne by discriminate.
  split; [exact Hsome |]. split; [exact Hne |].
  exact (proj1 (proj2 (proj2 (mirror_receives_same_stream c [VMCSender.ok; VMCSender.apply])
                               e Hsome Hne))).
Defined.

(** X2: the client built by [main] always has the given host and port as
    primary; it has a mirror, on 127.0.0.1 at the listener port, exactly when
    mirroring is requested and the listener port is not 0.  With
    [--mirror --listen-port 0] nothing is mirrored. *)
Theorem main_client_mirror (host : string) (port listen_port : Z) (mirror : bool) :
  DualClient.primary (main_client host port mirror listen_port) = mkEndpoint host port
  /\ DualClient.mirror (main_client host port mirror listen_port)
     = (if mirror && negb (listen_port =? 0)%Z
        then Some (mkEndpoint "127.0.0.1" listen_port) else None)
  /\ DualClient.mirror (main_client host port true 0) = None.
Proof.
  unfold main_client, DualClient.init. cbn [DualClient.primary DualClient.mirror].
  split; [reflexivity |]. split; [| reflexivity].
  destruct mirror; [| reflexivity]. cbn [andb].
  destruct (decide ("127.0.0.1"%string = EmptyString)) as [Heq | _]; [discriminate Heq |].
  destruct (decide (listen_port = 0%Z)) as [-> | Hne]; [reflexivity |].
  apply Z.eqb_neq in Hne. rewrite Hne. reflexivity.
Qed.

(** ** Blend update *)

Lemma clamp01_idem (v : R) : clamp01 (clamp01 v) = clamp01 v.
Proof. apply clamp01_id, clamp01_range. Qed.

Lemma apply_state_get expr intensity blink custom state alpha (k : string) :
  k ∈ BLEND_KEYS_TO_CLEAR ->
  dict_get (apply_expression_and_blink expr intensity blink custom state alpha).1 k 0
  = eased (blend_target expr intensity blink custom) (state_or_default state)
          (clamp01 alpha) k.
Proof.
  intros Hk. unfold dict_get at 1.
  rewrite apply_state_lookup, decide_True by exact Hk. reflexivity.
Qed.

(** The values sent are the values stored. *)
Lemma apply_sent_of_state expr intensity blink custom state alpha :
  let result := apply_expression_and_blink expr intensity blink custom state alpha in
  result.2 = map (fun k => VMCSender.blend k (dict_get result.1 k 0)) BLEND_KEYS_TO_CLEAR
             ++ [VMCSender.apply].
Proof.
  intros result. subst result. rewrite apply_sent.
  f_equal. apply map_ext_in. intros k Hk.
  rewrite apply_state_get by (apply list_elem_of_In, Hk). reflexivity.
Qed.

Lemma apply_sent_length expr intensity blink custom state alpha :
  length (apply_expression_and_blink expr intensity blink custom state alpha).2 = 19%nat.
Proof.
  rewrite apply_sent, length_app, length_map, BLEND_KEYS_TO_CLEAR_length. reflexivity.
Qed.

(** X3: one call sends 19 messages: a [Blend/Val] for each recognized key,
    in the order of [BLEND_KEYS_TO_CLEAR], carrying exactly the value the
    returned state holds for that key, and then one [Blend/Apply]. *)
Theorem blend_messages_match_state expr intensity blink custom state alpha :
  let result := apply_expression_and_blink expr intensity blink custom state alpha in
  result.2 = map (fun k => VMCSender.blend k (dict_get result.1 k 0)) BLEND_KEYS_TO_CLEAR
             ++ [VMCSender.apply]
  /\ length result.2 = 19%nat.
Proof.
  intros result. subst result. split.
  - apply apply_sent_of_state.
  - apply apply_sent_length.
Qed.

(** X4: intensity, blink and alpha act only through their clamped values:
    an intensity above 1 behaves as 1, and one below 0 as 0. *)
Theorem inputs_act_through_clamp expr intensity blink custom state alpha :
  apply_expression_and_blink expr intensity blink custom state alpha
  = apply_expression_and_blink expr (clamp01 intensity) (clamp01 blink) custom state
      (clamp01 alpha)
  /\ (1 <= intensity ->
      apply_expression_and_blink expr intensity blink custom state alpha
      = apply_expression_and_blink expr 1 blink custom state alpha)
  /\ (intensity <= 0 ->
      apply_expression_and_blink expr intensity blink custom state alpha
      = apply_expression_and_blink expr 0 blink custom state alpha).
Proof.
  assert (forall i i', clamp01 i = clamp01 i' ->
            apply_expression_and_blink expr i blink custom state alpha
            = apply_expression_and_blink expr i' blink custom state alpha) as Hsame.
  { intros i i' Heq. unfold apply_expression_and_blink, blend_target.
    rewrite Heq. reflexivity. }
  split; [|split].
  - unfold apply_expression_and_blink, blend_target.
    rewrite !clamp01_idem. reflexivity.
  - intros Hi. apply Hsame. rewrite clamp01_1. apply clamp01_ge_1, Hi.
  - intros Hi. apply Hsame. rewrite clamp01_0. apply clamp01_le_0, Hi.
Qed.

(** The hypothesis of [inputs_act_through_clamp] at intensity 7. *)
Lemma inputs_act_through_clamp_witness :
  1 <= 7
  /\ apply_expression_and_blink "happy" 7 0 None None 1
     = apply_expression_and_blink "happy" 1 0 None None 1.
Proof.
  assert (1 <= 7) as H by lra.
  split; [exact H |].
  exact (proj1 (proj2 (inputs_act_through_clamp "happy" 7 0 None None 1)) H).
Defined.

Lemma empty_key_not_recognized : EmptyString ∉ BLEND_KEYS_TO_CLEAR.
Proof. decide_key. Qed.

(** The value stored by a call with [alpha = 1] for a recognized key outside
    the blink family is the one the expression step put in the target. *)
Lemma snap_state_lookup expr intensity blink custom state (k : string) :
  k ∈ BLEND_KEYS_TO_CLEAR -> k ∉ BLINK_KEYS ->
  (apply_expression_and_blink expr intensity blink custom state 1).1 !! k
  = Some (dict_get (expression_target expr intensity custom) k 0).
Proof.
  intros Hk Hnb.
  rewrite apply_state_lookup, decide_True, clamp01_1, eased_snap by exact Hk.
  unfold dict_get. rewrite blend_target_lookup, decide_False by exact Hnb.
  reflexivity.
Qed.

Lemma sent_blend_of_state expr intensity blink custom state alpha (k : string) (v : R) :
  k ∈ BLEND_KEYS_TO_CLEAR ->
  (apply_expression_and_blink expr intensity blink custom state alpha).1 !! k = Some v ->
  VMCSender.blend k v ∈ (apply_expression_and_blink expr intensity blink custom state alpha).2.
Proof.
  intros Hk Hv. rewrite apply_sent. apply elem_of_app. left.
  apply list_elem_of_In, in_map_iff. exists k. split; [| apply list_elem_of_In, Hk].
  rewrite apply_state_lookup, decide_True in Hv by exact Hk.
  injection Hv as ->. reflexivity.
Qed.

(** X5: an explicit key that is one of the recognized keys, outside the blink
    family, replaces the preset: with [alpha = 1] it is stored and sent with
    the clamped intensity, and every other recognized key outside the blink
    family is 0, whatever the expression name. *)
Theorem recognized_custom_key_replaces_preset
    (key expr : string) (intensity blink : R) (state : option (gmap string R)) :
  key ∈ BLEND_KEYS_TO_CLEAR -> key ∉ BLINK_KEYS ->
  let result := apply_expression_and_blink expr intensity blink (Some key) state 1 in
  result.1 !! key = Some (clamp01 intensity)
  /\ VMCSender.blend key (clamp01 intensity) ∈ result.2
  /\ (forall k : string,
        k ∈ BLEND_KEYS_TO_CLEAR -> k ∉ BLINK_KEYS -> k <> key -> result.1 !! k = Some 0).
Proof.
  intros Hkey Hnb result. subst result.
  assert (key <> EmptyString) as Hne.
  { intros ->. exact (empty_key_not_recognized Hkey). }
  assert ((apply_expression_and_blink expr intensity blink (Some key) state 1).1 !! key
          = Some (clamp01 intensity)) as Hval.
  { rewrite snap_state_lookup by assumption. unfold dict_get.
    rewrite expression_target_lookup_custom, decide_True by (exact Hne || reflexivity).
    reflexivity. }
  split; [exact Hval |]. split; [apply sent_blend_of_state; assumption |].
  intros k Hk Hknb Hkne. rewrite snap_state_lookup by assumption. unfold dict_get.
  rewrite expression_target_lookup_custom, decide_False by assumption.
  rewrite zero_dict_lookup, decide_True by exact Hk. reflexivity.
Qed.

(** The hypotheses of [recognized_custom_key_replaces_preset] for the key
    ["Joy"] driven while the expression name is ["sad"]. *)
Lemma recognized_custom_key_replaces_preset_witness :
  ("Joy"%string ∈ BLEND_KEYS_TO_CLEAR /\ "Joy"%string ∉ BLINK_KEYS)
  /\ (apply_expression_and_blink "sad" 0.5 0 (Some "Joy"%string) None 1).1 !! "Joy"%string
     = Some (clamp01 0.5).
Proof.
  assert ("Joy"%string ∈ BLEND_KEYS_TO_CLEAR) as Hin by decide_key.
  assert ("Joy"%string ∉ BLINK_KEYS) as Hnb by decide_key.
  split; [split; [exact Hin | exact Hnb] |].
  exact (proj1 (recognized_custom_key_replaces_preset "Joy" "sad" 0.5 0 None Hin Hnb)).
Defined.

(** Each key a preset names is a recognized key outside the blink family, and
    the expression step gives it its weight times the clamped intensity. *)
Lemma preset_key_target (expr : string) (intensity : R) (name : string) (value : R) :
  (name, value) ∈ presets_get EXPRESSION_PRESETS expr ->
  name ∈ BLEND_KEYS_TO_CLEAR
  /\ (name ∉ BLINK_KEYS)
  /\ value = 1
  /\ dict_get (expression_target expr intensity None) name 0 = value * clamp01 intensity.
Proof.
  intros Hin. unfold expression_target; cbn [truthy_key].
  pose proof (presets_get_cases expr) as Hc; cbv zeta in Hc.
  destruct Hc as [Hc|[Hc|[Hc|[Hc|[Hc|Hc]]]]]; rewrite Hc in Hin |- *;
    [ apply elem_of_nil in Hin; destruct Hin | .. ];
    repeat (apply elem_of_cons in Hin as [[= -> ->]|Hin]);
    try (apply elem_of_nil in Hin; destruct Hin);
    (split; [decide_key | split; [decide_key | split; [reflexivity |]]]);
    cbn [fold_left]; unfold dict_get;
    rewrite ?lookup_insert_eq; repeat (rewrite lookup_insert_ne by discriminate);
    rewrite ?lookup_insert_eq; reflexivity.
Qed.

(** X6: every key named by the preset of the expression is recognized and is
    no blink key, and has weight 1; without an explicit key and with
    [alpha = 1] it is stored and sent with its weight times the clamped
    intensity.  No preset key is dropped by the update or overwritten by the
    blink. *)
Theorem preset_keys_are_driven
    (expr : string) (intensity blink : R) (state : option (gmap string R))
    (name : string) (value : R) :
  (name, value) ∈ presets_get EXPRESSION_PRESETS expr ->
  let result := apply_expression_and_blink expr intensity blink None state 1 in
  name ∈ BLEND_KEYS_TO_CLEAR
  /\ (name ∉ BLINK_KEYS)
  /\ value = 1
  /\ result.1 !! name = Some (value * clamp01 intensity)
  /\ VMCSender.blend name (value * clamp01 intensity) ∈ result.2.
Proof.
  intros Hin result. subst result.
  destruct (preset_key_target expr intensity name value Hin) as (Hk & Hnb & Hone & Htarget).
  assert ((apply_expression_and_blink expr intensity blink None state 1).1 !! name
          = Some (value * clamp01 intensity)) as Hval.
  { rewrite snap_state_lookup by assumption. rewrite Htarget. reflexivity. }
  split; [exact Hk |]. split; [exact Hnb |]. split; [exact Hone |].
  split; [exact Hval | apply sent_blend_of_state; assumption].
Qed.

(** The hypothesis of [preset_keys_are_driven] for the key ["Sorrow"] of the
    preset ["sad"]. *)
Lemma preset_keys_are_driven_witness :
  ("Sorrow"%string, 1) ∈ presets_get EXPRESSION_PRESETS "sad"
  /\ (apply_expression_and_blink "sad" 0.5 0 None None 1).1 !! "Sorrow"%string
     = Some (1 * clamp01 0.5).
Proof.
  assert (("Sorrow"%string, 1) ∈ presets_get EXPRESSION_PRESETS "sad") as Hin.
  { apply elem_of_cons. left. reflexivity. }
  split; [exact Hin |].
  exact (proj1 (proj2 (proj2 (proj2
    (preset_keys_are_driven "sad" 0.5 0 None "Sorrow" 1 Hin))))).
Defined.

Lemma fold_left_cons {A B : Type} (f : A -> B -> A) (b : B) (l : list B) (a : A) :
  fold_left f (b :: l) a = fold_left f l (f a b).
Proof. reflexivity. Qed.

Lemma run_calls_nil (st : gmap string R) : run_calls [] st = st.
Proof. reflexivity. Qed.

Lemma run_calls_cons (c : BlendCall) (calls : list BlendCall) (st : gmap string R) :
  run_calls (c :: calls) st = run_calls calls (call_update c (Some st)).
Proof.
  unfold run_calls.
  exact (fold_left_cons (fun st c => call_update c (Some st)) c calls st).
Qed.

Lemma call_update_get (c : BlendCall) (st : gmap string R) (k : string) :
  k ∈ BLEND_KEYS_TO_CLEAR ->
  dict_get (call_update c (Some st)) k 0
  = eased (blend_target (call_expr c) (call_intensity c) (call_blink c)
             (call_custom_expr_key c)) st (clamp01 (call_alpha c)) k.
Proof. intros Hk. unfold call_update. rewrite apply_state_get by exact Hk. reflexivity. Qed.

(** X7: [n] successive calls with the same arguments leave, for each
    recognized key, the fraction [(1 - a)^n] of the initial distance to the
    target, where [a] is the clamped alpha: the value approaches the target
    geometrically and never moves away from it. *)
Theorem repeated_calls_converge_geometrically
    (c : BlendCall) (n : nat) (st : gmap string R) (k : string) :
  k ∈ BLEND_KEYS_TO_CLEAR ->
  let target := dict_get (blend_target (call_expr c) (call_intensity c) (call_blink c)
                            (call_custom_expr_key c)) k 0 in
  let a := clamp01 (call_alpha c) in
  let value := dict_get (run_calls (repeat c n) st) k 0 in
  value = target + (dict_get st k 0 - target) * (1 - a) ^ n
  /\ Rabs (value - target) <= Rabs (dict_get st k 0 - target).
Proof.
  intros Hk target a value.
  assert (value = target + (dict_get st k 0 - target) * (1 - a) ^ n) as Hclosed.
  { subst value. revert st. induction n as [|n IH]; intros st.
    - cbn [repeat pow]. rewrite run_calls_nil. ring.
    - cbn [repeat]. rewrite run_calls_cons, IH, call_update_get by exact Hk.
      unfold eased. fold target a. cbn [pow]. ring. }
  split; [exact Hclosed |].
  rewrite Hclosed.
  replace (target + (dict_get st k 0 - target) * (1 - a) ^ n - target)
    with ((dict_get st k 0 - target) * (1 - a) ^ n) by ring.
  rewrite Rabs_mult.
  pose proof (clamp01_range (call_alpha c)) as Ha. fold a in Ha.
  assert (0 <= (1 - a) ^ n <= 1) as Hpow.
  { split; [apply pow_le; lra |].
    pose proof (pow_incr (1 - a) 1 n) as Hp. rewrite pow1 in Hp. apply Hp. lra. }
  pose proof (Rabs_pos (dict_get st k 0 - target)) as Hpos.
  rewrite (Rabs_pos_eq ((1 - a) ^ n)) by apply Hpow. nra.
Qed.

(** The hypothesis of [repeated_calls_converge_geometrically] for three
    calls on the key ["Joy"] from the all-zero state. *)
Lemma repeated_calls_converge_geometrically_witness :
  let c := mkBlendCall "happy" 1 0 None 0.5 in
  "Joy"%string ∈ BLEND_KEYS_TO_CLEAR
  /\ Rabs (dict_get (run_calls (repeat c 3) (zero_dict BLEND_KEYS_TO_CLEAR)) "Joy" 0
           - dict_get (blend_target "happy" 1 0 None) "Joy" 0)
     <= Rabs (dict_get (zero_dict BLEND_KEYS_TO_CLEAR) "Joy" 0
              - dict_get (blend_target "happy" 1 0 None) "Joy" 0).
Proof.
  intros c.
  assert ("Joy"%string ∈ BLEND_KEYS_TO_CLEAR) as Hin by decide_key.
  split; [exact Hin |].
  exact (proj2 (repeated_calls_converge_geometrically c 3
                  (zero_dict BLEND_KEYS_TO_CLEAR) "Joy" Hin)).
Defined.

(** ** Blink oscillator, continued *)

(** X8: the blink weight has period 3.2 in [t]: shifting [t] by any whole
    number of periods, forward or backward, leaves it unchanged.  The first
    pulse is symmetric about its midpoint 0.055, and the weight is 1 only
    when the phase is exactly at the midpoint. *)
Theorem blink_periodic_and_symmetric (t : R) (k : Z) :
  compute_blink (t + IZR k * 3.2) = compute_blink t
  /\ (0 < t < 0.11 -> compute_blink (0.11 - t) = compute_blink t)
  /\ (compute_blink t = 1 <-> py_mod t 3.2 = 0.055).
Proof.
  split; [apply compute_blink_periodic |]. split.
  - intros Ht.
    assert (py_mod t 3.2 = t) as Hph by (apply py_mod_small; lra).
    assert (py_mod (0.11 - t) 3.2 = 0.11 - t) as Hph' by (apply py_mod_small; lra).
    rewrite !compute_blink_pulse by lra. rewrite Hph, Hph'.
    replace (2 * (0.11 - t) / 0.11 - 1) with (- (2 * t / 0.11 - 1)) by lra.
    rewrite Rabs_Ropp. reflexivity.
  - split.
    + intros Hone. destruct (Rlt_dec (py_mod t 3.2) 0.11) as [Hlt | Hge].
      * rewrite compute_blink_pulse in Hone by exact Hlt.
        set (ph := py_mod t 3.2) in *.
        revert Hone. unfold Rabs. destruct (Rcase_abs (2 * ph / 0.11 - 1)); lra.
      * rewrite compute_blink_rest in Hone by lra. lra.
    + intros Hmid. rewrite compute_blink_pulse by lra. rewrite Hmid.
      replace (2 * 0.055 / 0.11 - 1) with 0 by lra. rewrite Rabs_R0. lra.
Qed.

(** The hypothesis of [blink_periodic_and_symmetric] a quarter of the way
    into the pulse. *)
Lemma blink_periodic_and_symmetric_witness :
  0 < 0.0275 < 0.11 /\ compute_blink (0.11 - 0.0275) = compute_blink 0.0275.
Proof.
  assert (0 < 0.0275 < 0.11) as H by lra.
  split; [exact H |].
  exact (proj1 (proj2 (blink_periodic_and_symmetric 0.0275 0)) H).
Defined.

(** ** Idle pose, continued *)

Lemma sin_scaled_bound (x c s : R) : 0 <= c -> Rabs (sin x * c * s) <= c * Rabs s.
Proof.
  intros Hc. rewrite !Rabs_mult, (Rabs_pos_eq c) by exact Hc.
  pose proof (SIN_bound x) as Hsin. pose proof (Rabs_pos s) as Hs.
  assert (Rabs (sin x) <= 1) as Hx by (apply Rabs_le; lra).
  assert (0 <= c * Rabs s) as Hcs by (apply Rmult_le_pos; assumption).
  rewrite Rmult_assoc. rewrite <- (Rmult_1_l (c * Rabs s)) at 2.
  apply Rmult_le_compat_r; assumption.
Qed.

Lemma sin_add_2PI (x : R) : sin (x + 2 * PI) = sin x.
Proof. rewrite sin_plus, sin_2PI, cos_2PI. ring. Qed.

(** X9: each output of the idle pose generator stays within its amplitude
    times the magnitude of the strength: 0.01 for the root height, 0.10 for
    pitch, 0.14 for yaw and 0.06 for roll. *)
Theorem compute_idle_pose_bounded (t s : R) :
  let '(root_y, pitch, yaw, roll) := compute_idle_pose t s in
  Rabs root_y <= 0.01 * Rabs s
  /\ Rabs pitch <= 0.10 * Rabs s
  /\ Rabs yaw <= 0.14 * Rabs s
  /\ Rabs roll <= 0.06 * Rabs s.
Proof.
  unfold compute_idle_pose. cbv zeta.
  split; [|split; [|split]]; apply sin_scaled_bound; lra.
Qed.

(** X10: each output of the idle pose generator is periodic in [t], with
    period [2*PI] divided by its angular frequency: 1.30 for the root
    height, 1.10 for pitch, 0.75 for yaw and 0.50 for roll. *)
Theorem compute_idle_pose_periods (t s : R) :
  (compute_idle_pose (t + 2 * PI / 1.30) s).1.1.1 = (compute_idle_pose t s).1.1.1
  /\ (compute_idle_pose (t + 2 * PI / 1.10) s).1.1.2 = (compute_idle_pose t s).1.1.2
  /\ (compute_idle_pose (t + 2 * PI / 0.75) s).1.2 = (compute_idle_pose t s).1.2
  /\ (compute_idle_pose (t + 2 * PI / 0.50) s).2 = (compute_idle_pose t s).2.
Proof.
  unfold compute_idle_pose. cbn [fst snd].
  replace ((t + 2 * PI / 1.30) * 1.30) with (t * 1.30 + 2 * PI) by (field; lra).
  replace ((t + 2 * PI / 1.10) * 1.10) with (t * 1.10 + 2 * PI) by (field; lra).
  replace ((t + 2 * PI / 0.75) * 0.75) with (t * 0.75 + 2 * PI) by (field; lra).
  replace ((t + 2 * PI / 0.50) * 0.50) with (t * 0.50 + 2 * PI) by (field; lra).
  rewrite !sin_add_2PI. repeat split; reflexivity.
Qed.

(** ** Quaternion builder, continued *)

(** X11: a rotation about a single axis gives the quaternion with
    [sin(r/2)] on that axis and [cos(r/2)] as scalar part. *)
Theorem quat_from_euler_xyz_single_axis (r : R) :
  quat_from_euler_xyz r 0 0 = (sin (r / 2), 0, 0, cos (r / 2))
  /\ quat_from_euler_xyz 0 r 0 = (0, sin (r / 2), 0, cos (r / 2))
  /\ quat_from_euler_xyz 0 0 r = (0, 0, sin (r / 2), cos (r / 2)).
Proof.
  unfold quat_from_euler_xyz. replace (0 / 2) with 0 by lra.
  rewrite sin_0, cos_0. cbv zeta.
  split; [|split]; quad_eq; ring.
Qed.

(** ** Transmission loop *)

(** The blend call made by one iteration. *)
Lemma loop_body_fields (a : Args) (start now tick_time : R) (s : LoopState) :
  let r := loop_body a start now tick_time s in
  let dt := frame_dt_of now (last_time s) in
  let pose := compute_idle_pose (now - start) (arg_idle_strength a) in
  let blend := apply_expression_and_blink (arg_expr a) (arg_intensity a)
                 (compute_blink (now - start)) (arg_custom_expr_key a)
                 (Some (blend_state s)) (expr_alpha dt a) in
  let head_q := quat_from_euler_xyz (smoothed_pitch r.1) (smoothed_yaw r.1)
                  (smoothed_roll r.1) in
  next_ok r.1 = (if Rle_dec (next_ok s) now then now + 2 else next_ok s)
  /\ last_time r.1 = now
  /\ blend_state r.1 = blend.1
  /\ smoothed_root_y r.1 = ease (smoothed_root_y s) pose.1.1.1 (pose_alpha dt a)
  /\ smoothed_pitch r.1 = ease (smoothed_pitch s) pose.1.1.2 (pose_alpha dt a)
  /\ smoothed_yaw r.1 = ease (smoothed_yaw s) pose.1.2 (pose_alpha dt a)
  /\ smoothed_roll r.1 = ease (smoothed_roll s) pose.2 (pose_alpha dt a)
  /\ r.2 = (if Rle_dec (next_ok s) now then [VMCSender.ok] else [])
           ++ [VMCSender.tick tick_time;
               VMCSender.root "root" 0 (smoothed_root_y r.1) 0 (0, 0, 0, 1);
               VMCSender.bone (arg_head_bone a) 0 0 0 head_q]
           ++ (if arg_send_tracker a
               then [VMCSender.tracker (arg_head_bone a) 0 0 0 head_q] else [])
           ++ blend.2.
Proof.
  intros r dt pose blend head_q. subst r dt pose blend head_q.
  unfold loop_body, compute_idle_pose. cbv beta iota zeta.
  destruct (apply_expression_and_blink _ _ _ _ _ _) as [st sent].
  destruct (Rle_dec (next_ok s) now);
    cbn [fst snd next_ok last_time blend_state smoothed_root_y smoothed_pitch
         smoothed_yaw smoothed_roll];
    repeat split; reflexivity.
Qed.

Lemma frame_dt_of_pos (now last : R) : 0 < frame_dt_of now last.
Proof. unfold frame_dt_of. pose proof (Rmax_l 1e-6 (now - last)). lra. Qed.

(** X12: the frame time is never below one microsecond: it is the time since
    the previous iteration when that is at least a microsecond, and one
    microsecond when the clock stood still or went backwards.  Hence both
    smoothing gains of an iteration lie strictly between 0 and 1, and the
    clamp inside the blend update leaves the expression gain as it is. *)
Theorem frame_gains_in_unit_interval (a : Args) (now last : R) :
  let dt := frame_dt_of now last in
  1e-6 <= dt
  /\ (1e-6 <= now - last -> dt = now - last)
  /\ (now <= last -> dt = 1e-6)
  /\ 0 < pose_alpha dt a < 1
  /\ 0 < expr_alpha dt a < 1
  /\ clamp01 (expr_alpha dt a) = expr_alpha dt a.
Proof.
  intros dt. subst dt.
  pose proof (frame_dt_of_pos now last) as Hpos.
  pose proof (smooth_alpha_range (frame_dt_of now last) (arg_expr_smooth a) Hpos) as He.
  split; [apply Rmax_l |].
  split; [intros H; apply Rmax_right, H |].
  split; [intros H; apply Rmax_left; lra |].
  split; [apply smooth_alpha_range, Hpos |].
  split; [exact He |].
  apply clamp01_id. unfold expr_alpha. lra.
Qed.

(** The hypothesis of [frame_gains_in_unit_interval] for a clock that went
    backwards by a second. *)
Lemma frame_gains_in_unit_interval_witness :
  4 <= 5 /\ frame_dt_of 4 5 = 1e-6.
Proof.
  assert (4 <= 5) as H by lra.
  split; [exact H |].
  exact (proj1 (proj2 (proj2 (frame_gains_in_unit_interval args_fast_pose 4 5))) H).
Defined.

(** X13: the pause between iterations is positive and at most one second:
    [1/fps] seconds for a frame rate of at least 1, and one second for a
    zero or negative frame rate, without a division by zero. *)
Theorem sleep_dt_bounds (fps : Z) :
  0 < sleep_dt fps <= 1
  /\ ((fps <= 1)%Z -> sleep_dt fps = 1)
  /\ ((1 <= fps)%Z -> sleep_dt fps = 1 / IZR fps).
Proof.
  unfold sleep_dt.
  assert (1 <= IZR (Z.max 1 fps)) as Hmax by (apply IZR_le; lia).
  split; [split |]; [| | split].
  - apply Rdiv_lt_0_compat; lra.
  - apply (Rmult_le_reg_r (IZR (Z.max 1 fps))); [lra |].
    replace (1 / IZR (Z.max 1 fps) * IZR (Z.max 1 fps)) with 1 by (field; lra). lra.
  - intros H. rewrite Z.max_l by exact H. lra.
  - intros H. rewrite Z.max_r by exact H. reflexivity.
Qed.

(** The hypothesis of [sleep_dt_bounds] for [--fps 0]. *)
Lemma sleep_dt_bounds_witness : (0 <= 1)%Z /\ sleep_dt 0 = 1.
Proof.
  assert (0 <= 1)%Z as H by lia.
  split; [exact H |].
  exact (proj1 (proj2 (sleep_dt_bounds 0)) H).
Defined.

Lemma quat_norm_one (rx ry rz : R) :
  let '(qx, qy, qz, qw) := quat_from_euler_xyz rx ry rz in
  qx * qx + qy * qy + qz * qz + qw * qw = 1.
Proof.
  unfold quat_from_euler_xyz. cbv zeta.
  pose proof (half_angle_unit rx) as Hx.
  pose proof (half_angle_unit ry) as Hy.
  pose proof (half_angle_unit rz) as Hz.
  set (cx := cos (rx / 2)) in *. set (sx := sin (rx / 2)) in *.
  set (cy := cos (ry / 2)) in *. set (sy := sin (ry / 2)) in *.
  set (cz := cos (rz / 2)) in *. set (sz := sin (rz / 2)) in *.
  transitivity ((cx * cx + sx * sx) * (cy * cy + sy * sy) * (cz * cz + sz * sz));
    [ring |].
  rewrite Hx, Hy, Hz. ring.
Qed.

(** X14: the messages of one iteration, in order: the heartbeat when it is
    due, the time, the root position with identity rotation and the smoothed
    height, the head bone at the origin with the quaternion of the smoothed
    angles, the same as a tracker when requested, the 18 blend values as
    stored in the new state, and the apply message; 22 messages, plus one
    for a heartbeat and one for a tracker.  The head quaternion has unit
    norm. *)
Theorem tick_message_sequence (a : Args) (start now tick_time : R) (s : LoopState) :
  let r := loop_body a start now tick_time s in
  let head_q := quat_from_euler_xyz (smoothed_pitch r.1) (smoothed_yaw r.1)
                  (smoothed_roll r.1) in
  r.2 = (if Rle_dec (next_ok s) now then [VMCSender.ok] else [])
        ++ [VMCSender.tick tick_time;
            VMCSender.root "root" 0 (smoothed_root_y r.1) 0 (0, 0, 0, 1);
            VMCSender.bone (arg_head_bone a) 0 0 0 head_q]
        ++ (if arg_send_tracker a
            then [VMCSender.tracker (arg_head_bone a) 0 0 0 head_q] else [])
        ++ map (fun k => VMCSender.blend k (dict_get (blend_state r.1) k 0))
             BLEND_KEYS_TO_CLEAR
        ++ [VMCSender.apply]
  /\ length r.2 = (22 + (if Rle_dec (next_ok s) now then 1 else 0)
                   + (if arg_send_tracker a then 1 else 0))%nat
  /\ (let '(qx, qy, qz, qw) := head_q in qx * qx + qy * qy + qz * qz + qw * qw = 1).
Proof.
  intros r head_q. subst head_q.
  destruct (loop_body_fields a start now tick_time s)
    as (_ & _ & Hblend & _ & _ & _ & _ & Hsent).
  fold r in Hblend, Hsent. split; [|split].
  - rewrite Hsent, Hblend. do 3 f_equal. apply apply_sent_of_state.
  - rewrite Hsent, !length_app, apply_sent_length.
    destruct (Rle_dec (next_ok s) now); destruct (arg_send_tracker a); reflexivity.
  - apply quat_norm_one.
Qed.

Lemma ok_not_blend_sent expr intensity blink custom state alpha :
  VMCSender.ok ∉ (apply_expression_and_blink expr intensity blink custom state alpha).2.
Proof.
  rewrite apply_sent. intros Hin. apply elem_of_app in Hin as [Hin | Hin].
  - apply list_elem_of_In, in_map_iff in Hin as (k & Heq & _). discriminate Heq.
  - apply list_elem_of_singleton in Hin. discriminate Hin.
Qed.

Lemma loop_body_ok_iff (a : Args) (start now tick_time : R) (s : LoopState) :
  VMCSender.ok ∈ (loop_body a start now tick_time s).2 <-> next_ok s <= now.
Proof.
  destruct (loop_body_fields a start now tick_time s)
    as (_ & _ & _ & _ & _ & _ & _ & Hsent).
  rewrite Hsent. clear Hsent.
  destruct (Rle_dec (next_ok s) now) as [Hle | Hgt].
  - split; [intros _; exact Hle |]. intros _. apply elem_of_app. left.
    apply list_elem_of_singleton. reflexivity.
  - split; [| intros Hle; contradiction]. intros Hin. exfalso.
    cbn [app] in Hin.
    apply elem_of_cons in Hin as [Hin | Hin]; [discriminate Hin |].
    apply elem_of_cons in Hin as [Hin | Hin]; [discriminate Hin |].
    apply elem_of_cons in Hin as [Hin | Hin]; [discriminate Hin |].
    apply elem_of_app in Hin as [Hin | Hin].
    + destruct (arg_send_tracker a).
      * apply list_elem_of_singleton in Hin. discriminate Hin.
      * apply elem_of_nil in Hin. exact Hin.
    + exact (ok_not_blend_sent _ _ _ _ _ _ Hin).
Qed.

(** X15: an iteration sends the heartbeat exactly when the clock reading has
    reached the due time, as its first message, and then sets the next due
    time two seconds after the reading; otherwise the due time is kept.
    After every iteration the due time lies strictly after the reading just
    processed. *)
Theorem heartbeat_schedule (a : Args) (start now tick_time : R) (s : LoopState) :
  let r := loop_body a start now tick_time s in
  (VMCSender.ok ∈ r.2 <-> next_ok s <= now)
  /\ (next_ok s <= now -> head r.2 = Some VMCSender.ok /\ next_ok r.1 = now + 2)
  /\ (now < next_ok s -> next_ok r.1 = next_ok s)
  /\ last_time r.1 < next_ok r.1.
Proof.
  intros r. subst r.
  destruct (loop_body_fields a start now tick_time s)
    as (Hnext & Hlast & _ & _ & _ & _ & _ & Hsent).
  split; [apply loop_body_ok_iff |].
  rewrite Hsent, Hnext, Hlast. clear Hsent Hnext Hlast.
  destruct (Rle_dec (next_ok s) now) as [Hle | Hgt].
  - split; [intros _; split; reflexivity |]. split; [intros Hlt; lra | lra].
  - split; [intros Hle; contradiction |]. split; [intros _; reflexivity | lra].
Qed.

(** The hypothesis of [heartbeat_schedule] at the first heartbeat, two
    seconds after the start. *)
Lemma heartbeat_schedule_witness :
  next_ok (initial_loop_state 0) <= 2
  /\ next_ok (loop_body args_fast_pose 0 2 2 (initial_loop_state 0)).1 = 2 + 2.
Proof.
  assert (next_ok (initial_loop_state 0) <= 2) as H.
  { unfold initial_loop_state. cbn [next_ok]. lra. }
  split; [exact H |].
  exact (proj2 (proj1 (proj2
    (heartbeat_schedule args_fast_pose 0 2 2 (initial_loop_state 0))) H)).
Defined.

Lemma run_loop_cons (a : Args) (start now tick_time : R) (rest : list (R * R))
    (s : LoopState) :
  let r := loop_body a start now tick_time s in
  let r' := run_loop a start rest r.1 in
  run_loop a start ((now, tick_time) :: rest) s = (r'.1, r.2 ++ r'.2).
Proof.
  intros r r'. subst r r'. cbn [run_loop].
  destruct (loop_body a start now tick_time s) as [s1 sent]. cbn [fst snd].
  destruct (run_loop a start rest s1) as [s2 sent']. reflexivity.
Qed.

Lemma main_run_eq (a : Args) (start : R) (readings : list (R * R)) :
  let r := run_loop a start readings (initial_loop_state start) in
  main_run a start readings = (r.1, VMCSender.ok :: r.2).
Proof.
  intros r. subst r. unfold main_run.
  destruct (run_loop a start readings (initial_loop_state start)) as [s sent].
  reflexivity.
Qed.

Lemma heartbeat_quiet_step (a : Args) (start now tick_time : R) (s : LoopState) :
  now < next_ok s ->
  (VMCSender.ok ∉ (loop_body a start now tick_time s).2)
  /\ next_ok (loop_body a start now tick_time s).1 = next_ok s.
Proof.
  intros Hlt. split.
  - intros Hin. apply loop_body_ok_iff in Hin. lra.
  - destruct (loop_body_fields a start now tick_time s) as (Hnext & _).
    rewrite Hnext. destruct (Rle_dec (next_ok s) now) as [Hle | _]; [lra | reflexivity].
Qed.

Lemma run_loop_quiet (a : Args) (start : R) (readings : list (R * R)) (s : LoopState) :
  Forall (fun rd : R * R => rd.1 < next_ok s) readings ->
  (VMCSender.ok ∉ (run_loop a start readings s).2)
  /\ next_ok (run_loop a start readings s).1 = next_ok s.
Proof.
  revert s. induction readings as [|[now tick_time] rest IH]; intros s Hall.
  - cbn [run_loop fst snd]. split; [apply not_elem_of_nil | reflexivity].
  - apply Forall_cons in Hall as [Hnow Hrest]. cbn [fst] in Hnow.
    rewrite run_loop_cons. cbn [fst snd].
    destruct (heartbeat_quiet_step a start now tick_time s Hnow) as [Hno Hkeep].
    destruct (IH (loop_body a start now tick_time s).1) as [Hno' Hkeep'].
    { rewrite Hkeep. exact Hrest. }
    split; [| rewrite Hkeep', Hkeep; reflexivity].
    intros Hin. apply elem_of_app in Hin as [Hin | Hin]; [exact (Hno Hin) | exact (Hno' Hin)].
Qed.

(** X16: while every clock reading stays before the due time, the loop sends
    no heartbeat and keeps the due time.  So after a heartbeat at reading
    [now] none follows before a reading reaches [now + 2], and a run whose
    readings all precede [start + 2] sends the heartbeat of line 224 first
    and no other. *)
Theorem no_heartbeat_before_due (a : Args) (start : R) (readings : list (R * R))
    (s : LoopState) :
  (Forall (fun rd : R * R => rd.1 < next_ok s) readings ->
   (VMCSender.ok ∉ (run_loop a start readings s).2)
   /\ next_ok (run_loop a start readings s).1 = next_ok s)
  /\ (forall now tick_time : R,
        next_ok s <= now ->
        Forall (fun rd : R * R => rd.1 < now + 2) readings ->
        VMCSender.ok ∉ (run_loop a start readings (loop_body a start now tick_time s).1).2)
  /\ (Forall (fun rd : R * R => rd.1 < start + 2) readings ->
      exists rest, (main_run a start readings).2 = VMCSender.ok :: rest
                   /\ (VMCSender.ok ∉ rest)).
Proof.
  split; [apply run_loop_quiet |]. split.
  - intros now tick_time Hdue Hall.
    destruct (loop_body_fields a start now tick_time s) as (Hnext & _).
    destruct (Rle_dec (next_ok s) now) as [_ | Hgt]; [| contradiction].
    apply run_loop_quiet. rewrite Hnext. exact Hall.
  - intros Hall. rewrite main_run_eq. cbn [snd]. eexists. split; [reflexivity |].
    apply run_loop_quiet. unfold initial_loop_state. cbn [next_ok]. exact Hall.
Qed.

(** The hypothesis of [no_heartbeat_before_due] for two readings within the
    first second of a run. *)
Lemma no_heartbeat_before_due_witness :
  let readings := [(0.5, 0.5); (0.9, 0.9)] in
  Forall (fun rd : R * R => rd.1 < 0 + 2) readings
  /\ exists rest, (main_run args_fast_pose 0 readings).2 = VMCSender.ok :: rest
                  /\ (VMCSender.ok ∉ rest).
Proof.
  intros readings.
  assert (Forall (fun rd : R * R => rd.1 < 0 + 2) readings) as Hall.
  { subst readings. repeat constructor; cbn [fst]; lra. }
  split; [exact Hall |].
  exact (proj2 (proj2 (no_heartbeat_before_due args_fast_pose 0 readings
                         (initial_loop_state 0))) Hall).
Defined.

Lemma ease_abs_bound (acc raw alpha bound : R) :
  0 <= alpha <= 1 -> Rabs acc <= bound -> Rabs raw <= bound ->
  Rabs (ease acc raw alpha) <= bound.
Proof.
  intros Ha Hacc Hraw. apply Rabs_le. unfold ease. revert Hacc Hraw. unfold Rabs.
  destruct (Rcase_abs acc), (Rcase_abs raw); intros Hacc Hraw; split; nra.
Qed.

Lemma apply_state_ok expr intensity blink custom alpha (st : gmap string R) :
  blend_state_ok st ->
  blend_state_ok (apply_expression_and_blink expr intensity blink custom (Some st) alpha).1.
Proof.
  intros [Hval Hdom]. split; intros k Hk.
  - rewrite apply_state_lookup, decide_True by exact Hk.
    eexists; split; [reflexivity |].
    apply eased_range.
    + apply clamp01_range.
    + apply unit_valued_get, blend_target_unit_valued.
    + cbn [state_or_default]. destruct (Hval k Hk) as (v & Hv & Hrange).
      unfold dict_get. rewrite Hv. exact Hrange.
  - rewrite apply_state_lookup in Hk.
    destruct (decide (k ∈ BLEND_KEYS_TO_CLEAR)) as [Hin | _]; [exact Hin |].
    apply Hdom. exact Hk.
Qed.

Lemma loop_body_keeps_bounds (a : Args) (start now tick_time : R) (s : LoopState) :
  blend_state_ok (blend_state s) -> pose_within a s ->
  blend_state_ok (blend_state (loop_body a start now tick_time s).1)
  /\ pose_within a (loop_body a start now tick_time s).1.
Proof.
  intros Hblend (Hy & Hp & Hw & Hr).
  destruct (loop_body_fields a start now tick_time s)
    as (_ & _ & Eb & Ey & Ep & Ew & Er & _).
  split; [rewrite Eb; apply apply_state_ok, Hblend |].
  assert (0 <= pose_alpha (frame_dt_of now (last_time s)) a <= 1) as Ha.
  { pose proof (smooth_alpha_range (frame_dt_of now (last_time s)) (arg_pose_smooth a)
                  (frame_dt_of_pos now (last_time s))) as H.
    unfold pose_alpha. lra. }
  unfold pose_within. cbv zeta. rewrite Ey, Ep, Ew, Er.
  unfold compute_idle_pose. cbn [fst snd].
  split; [|split; [|split]]; (apply ease_abs_bound; [exact Ha | assumption |]);
    apply sin_scaled_bound; lra.
Qed.

Lemma run_loop_keeps_bounds (a : Args) (start : R) (readings : list (R * R))
    (s : LoopState) :
  blend_state_ok (blend_state s) -> pose_within a s ->
  blend_state_ok (blend_state (run_loop a start readings s).1)
  /\ pose_within a (run_loop a start readings s).1.
Proof.
  revert s. induction readings as [|[now tick_time] rest IH]; intros s Hb Hp.
  - cbn [run_loop fst]. split; assumption.
  - rewrite run_loop_cons. cbn [fst].
    destruct (loop_body_keeps_bounds a start now tick_time s Hb Hp) as [Hb' Hp'].
    apply IH; assumption.
Qed.

Lemma initial_loop_state_bounds (a : Args) (start : R) :
  blend_state_ok (blend_state (initial_loop_state start))
  /\ pose_within a (initial_loop_state start).
Proof.
  unfold initial_loop_state, pose_within.
  cbn [blend_state smoothed_root_y smoothed_pitch smoothed_yaw smoothed_roll].
  split; [exact zero_dict_ok |]. rewrite Rabs_R0.
  pose proof (Rabs_pos (arg_idle_strength a)). repeat split; lra.
Qed.

(** X17: at every point of a run, whatever the clock readings, the blend
    state holds exactly the 18 recognized keys with weights in [[0,1]], and
    the smoothed root height, pitch, yaw and roll stay within 0.01, 0.10,
    0.14 and 0.06 times the magnitude of the idle strength. *)
Theorem run_stays_within_bounds (a : Args) (start : R) (readings : list (R * R)) :
  let s := (main_run a start readings).1 in
  blend_state_ok (blend_state s) /\ pose_within a s.
Proof.
  intros s. subst s. rewrite main_run_eq. cbn [fst].
  destruct (initial_loop_state_bounds a start) as [Hb Hp].
  apply run_loop_keeps_bounds; assumption.
Qed.

(** ** Explicit keys that cannot be driven *)

Lemma pair_eq_of_components {A B : Type} (p q : A * B) : p.1 = q.1 -> p.2 = q.2 -> p = q.
Proof. destruct p, q. cbn [fst snd]. intros -> ->. reflexivity. Qed.

Lemma neutral_target_lookup (intensity : R) (k : string) :
  expression_target "neutral" intensity None !! k = zero_dict BLEND_KEYS_TO_CLEAR !! k.
Proof.
  unfold expression_target; cbn [truthy_key]. rewrite presets_get_neutral.
  cbn [fold_left]. reflexivity.
Qed.

(** X18: an explicit key outside the recognized keys does not only go
    unsent: it also switches the preset off, so the call returns the same
    state and sends the same messages as the neutral expression without an
    explicit key.  An empty explicit key counts as none, and the preset of
    the expression name is used. *)
Theorem unrecognized_custom_key_acts_as_neutral
    (key expr : string) (intensity blink alpha : R) (state : option (gmap string R)) :
  (key <> EmptyString -> key ∉ BLEND_KEYS_TO_CLEAR ->
   apply_expression_and_blink expr intensity blink (Some key) state alpha
   = apply_expression_and_blink "neutral" intensity blink None state alpha)
  /\ apply_expression_and_blink expr intensity blink (Some EmptyString) state alpha
     = apply_expression_and_blink expr intensity blink None state alpha.
Proof.
  split; [| unfold apply_expression_and_blink, blend_target; cbn [truthy_key];
             reflexivity].
  intros Hne Hout.
  assert (forall k : string, k ∈ BLEND_KEYS_TO_CLEAR ->
            eased (blend_target expr intensity blink (Some key)) (state_or_default state)
                  (clamp01 alpha) k
            = eased (blend_target "neutral" intensity blink None) (state_or_default state)
                    (clamp01 alpha) k) as Heased.
  { intros k Hk. unfold eased, dict_get. rewrite !blend_target_lookup.
    destruct (decide (k ∈ BLINK_KEYS)) as [_ | _]; [reflexivity |].
    rewrite expression_target_lookup_custom by exact Hne.
    rewrite decide_False by (intros ->; exact (Hout Hk)).
    rewrite neutral_target_lookup. reflexivity. }
  apply pair_eq_of_components.
  - apply map_eq. intros k. rewrite !apply_state_lookup.
    destruct (decide (k ∈ BLEND_KEYS_TO_CLEAR)) as [Hk | _]; [| reflexivity].
    rewrite Heased by exact Hk. reflexivity.
  - rewrite !apply_sent. f_equal. apply map_ext_in. intros k Hk.
    rewrite Heased by (apply list_elem_of_In, Hk). reflexivity.
Qed.

(** The hypotheses of [unrecognized_custom_key_acts_as_neutral] for the key
    ["MyCustomBlend"] given with the expression ["happy"]. *)
Lemma unrecognized_custom_key_acts_as_neutral_witness :
  ("MyCustomBlend"%string <> EmptyString /\ "MyCustomBlend"%string ∉ BLEND_KEYS_TO_CLEAR)
  /\ apply_expression_and_blink "happy" 1 0 (Some "MyCustomBlend"%string) None 1
     = apply_expression_and_blink "neutral" 1 0 None None 1.
Proof.
  assert ("MyCustomBlend"%string <> EmptyString) as Hne by discriminate.
  assert ("MyCustomBlend"%string ∉ BLEND_KEYS_TO_CLEAR) as Hout by decide_key.
  split; [split; [exact Hne | exact Hout] |].
  exact (proj1 (unrecognized_custom_key_acts_as_neutral "MyCustomBlend" "happy" 1 0 1 None)
           Hne Hout).
Defined.

(** ** Clamp *)

(** X19: the clamp returns a value in [[0,1]], leaves values of [[0,1]]
    unchanged, sends everything below 0 to 0 and everything above 1 to 1,
    is monotone, and applying it twice is applying it once. *)
Theorem clamp01_properties (v w : R) :
  0 <= clamp01 v <= 1
  /\ (0 <= v <= 1 -> clamp01 v = v)
  /\ (v <= 0 -> clamp01 v = 0)
  /\ (1 <= v -> clamp01 v = 1)
  /\ (v <= w -> clamp01 v <= clamp01 w)
  /\ clamp01 (clamp01 v) = clamp01 v.
Proof.
  split; [apply clamp01_range |]. split; [apply clamp01_id |].
  split; [apply clamp01_le_0 |]. split; [apply clamp01_ge_1 |].
  split; [| apply clamp01_idem].
  intros Hle. unfold clamp01, Rmax, Rmin.
  repeat (destruct (Rle_dec _ _)); lra.
Qed.

(** The hypothesis of [clamp01_properties] at an intensity of 2.5. *)
Lemma clamp01_properties_witness : 1 <= 2.5 /\ clamp01 2.5 = 1.
Proof.
  assert (1 <= 2.5) as H by lra.
  split; [exact H |].
  exact (proj1 (proj2 (proj2 (proj2 (clamp01_properties 2.5 0)))) H).
Defined.
